(** * modvendor: the manifest parser, scope filter and vendor planner

    A shallow embedding of [main.go] of goware/modvendor and the properties
    of its path encoder, manifest parser, scope filter and vendor planner.

    Go strings are byte strings: [string] with one [ascii] per byte.  The
    byte-level operations of the program ([strings.Index], [strings.Split],
    slicing, [line[0]]) are modelled on all byte strings.  The one place
    where the program iterates over runes is [pkgModPath]; there a byte is
    a rune exactly for ASCII text, the alphabet of module paths, and the
    statements about the encoding say so. *)

From Stdlib Require Import Ascii String ZArith Lia Bool.
From stdpp Require Import base option list gmap strings.

Local Open Scope string_scope.
Local Open Scope Z_scope.
Local Open Scope list_scope.

#[local] Arguments String.append !_ _ / : simpl nomatch.

(** ** Outcomes of a run

    [log.Fatal] and [os.Exit(1)] end the process with a message; an index
    out of range and a nil dereference are run-time panics. *)

Inductive panic : Set :=
| IndexOutOfRange
| NilDereference.

Inductive outcome (A : Type) : Type :=
| Ok (a : A)
| Fatal (msg : string)
| Panic (p : panic).

Arguments Ok {A} a.
Arguments Fatal {A} msg.
Arguments Panic {A} p.

Definition bind {A B : Type} (x : outcome A) (k : A -> outcome B) : outcome B :=
  match x with
  | Ok a => k a
  | Fatal msg => Fatal msg
  | Panic p => Panic p
  end.

Notation "x <- e1 ;; e2" := (bind e1 (fun x => e2))
  (at level 100, e1 at next level, right associativity).

Definition is_Ok {A : Type} (x : outcome A) : bool :=
  match x with Ok _ => true | _ => false end.

(** ** The [strings] package, on byte strings *)

Module Strings.

(** [len(s)] *)
Definition len (s : string) : nat := String.length s.

(** [strings.HasPrefix(s, prefix)] *)
Fixpoint HasPrefix (s prefix : string) {struct prefix} : bool :=
  match prefix with
  | EmptyString => true
  | String a prefix' =>
      match s with
      | String b s' => if Ascii.eqb a b then HasPrefix s' prefix' else false
      | EmptyString => false
      end
  end.

(** First position at which [substr] occurs in [s], if any. *)
Fixpoint index_of (s substr : string) : option nat :=
  if HasPrefix s substr then Some 0%nat
  else match s with
       | EmptyString => None
       | String _ s' => S <$> index_of s' substr
       end.

(** [strings.Index(s, substr)]: the first position, or -1. *)
Definition Index (s substr : string) : Z :=
  match index_of s substr with
  | Some n => Z.of_nat n
  | None => -1
  end.

(** [s[n:]] for [n <= len(s)]; every use below is in range (see
    [Index_len_le]). *)
Fixpoint slice_from (s : string) (n : nat) {struct n} : string :=
  match n with
  | O => s
  | S n' =>
      match s with
      | String _ s' => slice_from s' n'
      | EmptyString => EmptyString
      end
  end.

(** [strings.Split(s, sep)] for a separator of one byte, the only kind the
    program passes.  The result is never empty: a string without the
    separator is returned as the one element. *)
Fixpoint Split (s : string) (sep : ascii) : list string :=
  match s with
  | EmptyString => [EmptyString]
  | String c s' =>
      if Ascii.eqb c sep then EmptyString :: Split s' sep
      else match Split s' sep with
           | h :: t => String c h :: t
           | [] => [String c EmptyString]
           end
  end.

(** [strings.Join(elems, sep)] *)
Fixpoint Join (elems : list string) (sep : string) : string :=
  match elems with
  | [] => EmptyString
  | [e] => e
  | e :: rest => e +:+ sep +:+ Join rest sep
  end.

(** White space of [strings.TrimSpace] within ASCII. *)
Definition isSpace (c : ascii) : bool :=
  let n := nat_of_ascii c in
  ((9 <=? n)%nat && (n <=? 13)%nat) || (n =? 32)%nat.

Fixpoint TrimLeft (s : string) : string :=
  match s with
  | String c s' => if isSpace c then TrimLeft s' else s
  | EmptyString => EmptyString
  end.

Fixpoint TrimRight (s : string) : string :=
  match s with
  | EmptyString => EmptyString
  | String c s' =>
      match TrimRight s' with
      | EmptyString => if isSpace c then EmptyString else String c EmptyString
      | t => String c t
      end
  end.

(** [strings.TrimSpace(s)] *)
Definition TrimSpace (s : string) : string := TrimRight (TrimLeft s).

End Strings.

(** ** The [path/filepath] package (Unix) *)

Module Filepath.

(** The state of the loop of [filepath.Clean], element by element: [dotdot]
    counts the leading [..] elements of an unrooted path, which the loop
    never backtracks over (its index [dotdot]); [out] holds the elements
    written after them, the last one first. *)
Definition clean_elem (rooted : bool) (st : nat * list string) (e : string)
  : nat * list string :=
  let '(dotdot, out) := st in
  if String.eqb e "" then st                (* empty path element *)
  else if String.eqb e "." then st          (* . element *)
  else if String.eqb e ".." then            (* .. element *)
    match out with
    | _ :: out' => (dotdot, out')           (* can backtrack *)
    | [] => if rooted then st else (S dotdot, [])
    end
  else (dotdot, e :: out).                  (* real path element *)

(** The buffer of [filepath.Clean] as a string; empty turns into [.]. *)
Definition render (rooted : bool) (st : nat * list string) : string :=
  let '(dotdot, out) := st in
  let body := Strings.Join (repeat ".." dotdot ++ rev out) "/" in
  let buf := if rooted then "/" +:+ body else body in
  if String.eqb buf "" then "." else buf.

(** [filepath.Clean(path)] *)
Definition Clean (path : string) : string :=
  match path with
  | EmptyString => "."
  | String c _ =>
      let rooted := Ascii.eqb c "/" in
      render rooted (fold_left (clean_elem rooted) (Strings.Split path "/") (O, []))
  end.

(** The elements from the first non-empty one on. *)
Fixpoint from_nonempty (elem : list string) : list string :=
  match elem with
  | [] => []
  | e :: rest => if String.eqb e "" then from_nonempty rest else elem
  end.

(** [filepath.Join(elem...)] *)
Definition Join (elem : list string) : string :=
  match from_nonempty elem with
  | [] => ""
  | rest => Clean (Strings.Join rest "/")
  end.

End Filepath.

(** ** The environment of a run

    What the program reads from outside: the variables [GOPATH] and [HOME],
    the working directory, the file system as seen through [os.Stat] and
    through [zglob.Glob]. *)

Record Env : Type := mkEnv {
  GOPATH : string;                        (* os.Getenv("GOPATH") *)
  HOME : string;                          (* os.Getenv("HOME") *)
  Getwd : outcome string;                 (* os.Getwd(), under must *)
  IsNotExist : string -> bool;            (* os.Stat(p) fails, os.IsNotExist *)
  Glob : string -> list string + string   (* zglob.Glob(p): matches or error *)
}.

(** ** The module record *)

Record Mod : Type := mkMod {
  ImportPath : string;
  SourcePath : string;
  Version : string;
  SourceVersion : string;
  Dir : string;                           (* full path, $GOPATH/pkg/mod/ *)
  Pkgs : list string;                     (* sub-pkg import paths *)
  VendorList : gmap string bool           (* files to vendor *)
}.

Definition set_Source (sourcePath sourceVersion : string) (m : Mod) : Mod :=
  mkMod (ImportPath m) sourcePath (Version m) sourceVersion (Dir m) (Pkgs m)
        (VendorList m).

Definition set_Dir (dir : string) (m : Mod) : Mod :=
  mkMod (ImportPath m) (SourcePath m) (Version m) (SourceVersion m) dir (Pkgs m)
        (VendorList m).

Definition set_Pkgs (pkgs : list string) (m : Mod) : Mod :=
  mkMod (ImportPath m) (SourcePath m) (Version m) (SourceVersion m) (Dir m) pkgs
        (VendorList m).

Definition set_VendorList (vendorList : gmap string bool) (m : Mod) : Mod :=
  mkMod (ImportPath m) (SourcePath m) (Version m) (SourceVersion m) (Dir m)
        (Pkgs m) vendorList.

(** ** The path encoder, [pkgModPath] *)

(** [unicode.IsUpper] and [unicode.ToLower] on ASCII. *)
Definition IsUpper (char : ascii) : bool :=
  let n := nat_of_ascii char in (65 <=? n)%nat && (n <=? 90)%nat.

Definition ToLower (char : ascii) : ascii :=
  if IsUpper char then ascii_of_nat (nat_of_ascii char + 32) else char.

(** One turn of the loop over the import path: what is added to
    [normPath]. *)
Definition escape (char : ascii) : string :=
  if IsUpper char then "!" +:+ String (ToLower char) EmptyString
  else String char EmptyString.

(** The loop [for _, char := range importPath], from a given [normPath]. *)
Fixpoint normLoop (normPath importPath : string) : string :=
  match importPath with
  | EmptyString => normPath
  | String char rest => normLoop (normPath +:+ escape char) rest
  end.

Definition goPath (env : Env) : string :=
  if String.eqb (GOPATH env) ""
  then Filepath.Join [HOME env; "go"]     (* the default GOPATH for go v1.11 *)
  else GOPATH env.

Definition pkgModPath (env : Env) (importPath version : string) : string :=
  let normPath := normLoop "" importPath in
  Filepath.Join [goPath env; "pkg"; "mod"; normPath +:+ "@" +:+ version].

(** ** [importPathIntersect] *)

Definition importPathIntersect (basePath pkgPath : string) : string :=
  if negb (Strings.Index pkgPath basePath =? 0) then ""
  else Strings.slice_from pkgPath (Strings.len basePath).

(** ** The candidate collector, [buildModVendorList] *)

(** [for _, m := range matches { vendorList[m] = false }] *)
Fixpoint addMatches (vendorList : gmap string bool) (matches : list string)
  : gmap string bool :=
  match matches with
  | [] => vendorList
  | m :: rest => addMatches (<[m := false]> vendorList) rest
  end.

(** The loop over the patterns, from a given [vendorList]. *)
Fixpoint globLoop (env : Env) (copyPat : list string) (dir : string)
  (vendorList : gmap string bool) : outcome (gmap string bool) :=
  match copyPat with
  | [] => Ok vendorList
  | pat :: rest =>
      match Glob env (Filepath.Join [dir; pat]) with
      | inr err => Fatal ("glob match failure: " +:+ err)
      | inl matches => globLoop env rest dir (addMatches vendorList matches)
      end
  end.

Definition buildModVendorList (env : Env) (copyPat : list string) (m : Mod)
  : outcome (gmap string bool) :=
  globLoop env copyPat (Dir m) ∅.

(** ** The manifest parser

    The loop of [main] over the lines of [vendor/modules.txt].  [mod] is a
    pointer, and [modules] a slice of pointers: the records live in [heap],
    a pointer is a position in it, and [modPtr] is [None] for [nil].  A
    record is stored once the turn of the loop that allocates it is over;
    nothing reads it before. *)

Record parser : Type := mkParser {
  heap : list Mod;
  modPtr : option nat;                    (* var mod *Mod *)
  modules : list nat                      (* modules := []*Mod{} *)
}.

(** [s[i]] *)
Definition at_index (s : list string) (i : nat) : outcome string :=
  match s !! i with
  | Some x => Ok x
  | None => Panic IndexOutOfRange
  end.

(** [len(s) > 3 && s[3] == "=>"] *)
Definition hasReplace (s : list string) : bool :=
  (3 <? length s)%nat &&
  match s !! 3%nat with
  | Some s3 => String.eqb s3 "=>"
  | None => false
  end.

(** [mod.Pkgs = append(mod.Pkgs, line)] *)
Definition appendPkg (line : string) (m : Mod) : Mod :=
  set_Pkgs (Pkgs m ++ [line]) m.

(** The end of the turn for a module line: the check that [mod.Dir]
    exists, the candidates, and the record appended to [modules]. *)
Definition emitMod (env : Env) (copyPat : list string) (st : parser) (m : Mod)
  : outcome parser :=
  if IsNotExist env (Dir m) then
    Fatal (Dir m +:+ " module path does not exist. Check $GOPATH/pkg/mod.")
  else
    vendorList <- buildModVendorList env copyPat m ;;
    let p := length (heap st) in
    Ok (mkParser (heap st ++ [set_VendorList vendorList m]) (Some p)
                 (modules st ++ [p])).

(** The turn of the loop for a line that begins with [#]. *)
Definition moduleLine (env : Env) (copyPat : list string) (st : parser)
  (line : string) : outcome parser :=
  let s := Strings.Split line " " in
  s1 <- at_index s 1 ;;
  s2 <- at_index s 2 ;;
  let m := mkMod s1 "" s2 "" "" [] ∅ in
  if String.eqb s2 "=>" then
    (* golang/go issue 33848 added these; they are ignored *)
    Ok (mkParser (heap st ++ [m]) (Some (length (heap st))) (modules st))
  else
    (* "replace" in the module file, if any *)
    m <- (if hasReplace s then
            s4 <- at_index s 4 ;;
            s5 <- at_index s 5 ;;
            Ok (set_Dir (pkgModPath env s4 s5) (set_Source s4 s5 m))
          else
            Ok (set_Dir (pkgModPath env s1 s2) m)) ;;
    emitMod env copyPat st m.

(** The turn of the loop for any other line. *)
Definition packageLine (st : parser) (line : string) : outcome parser :=
  match modPtr st with
  | None => Panic NilDereference
  | Some p =>
      Ok (mkParser (alter (appendPkg line) p (heap st)) (Some p) (modules st))
  end.

(** One turn of the loop. *)
Definition parseLine (env : Env) (copyPat : list string) (st : parser)
  (line : string) : outcome parser :=
  match line with
  | EmptyString => Panic IndexOutOfRange  (* line[0] *)
  | String c _ =>
      if Ascii.eqb c "#"                  (* line[0] == 35 *)
      then moduleLine env copyPat st line
      else packageLine st line
  end.

(** [for scanner.Scan() { ... }] *)
Fixpoint parseLines (env : Env) (copyPat : list string) (st : parser)
  (lines : list string) : outcome parser :=
  match lines with
  | [] => Ok st
  | line :: rest =>
      st' <- parseLine env copyPat st line ;;
      parseLines env copyPat st' rest
  end.

Definition parser0 : parser := mkParser [] None [].

(** The records [modules] points to, in order. *)
Definition records (st : parser) : list Mod :=
  omap (fun p => heap st !! p) (modules st).

(** ** The scope filter *)

(** [filepath.Join(mod.Dir, importPathIntersect(mod.ImportPath, subpkg))] *)
Definition scopePath (m : Mod) (subpkg : string) : string :=
  Filepath.Join [Dir m; importPathIntersect (ImportPath m) subpkg].

(** [for _, subpkg := range mod.Pkgs], for one [vendorFile]: the flag
    [mod.VendorList[vendorFile]] at the end. *)
Fixpoint markLoop (m : Mod) (vendorFile : string) (pkgs : list string)
  (toggle : bool) : bool :=
  match pkgs with
  | [] => toggle
  | subpkg :: rest =>
      let x := Strings.Index vendorFile (scopePath m subpkg) in
      markLoop m vendorFile rest (if x =? 0 then true else toggle)
  end.

(** [for _, pkg := range includedPackages], appending to [mod.Pkgs]. *)
Fixpoint appendIncluded (importPath : string) (pkgs includedPackages : list string)
  : list string :=
  match includedPackages with
  | [] => pkgs
  | pkg :: rest =>
      appendIncluded importPath
        (if Strings.HasPrefix pkg importPath then pkgs ++ [pkg] else pkgs) rest
  end.

(** One turn of the loop that filters out files not part of [mod.Pkgs]. *)
Definition filterMod (includedPackages : list string) (m : Mod) : Mod :=
  if (size (VendorList m) =? 0)%nat then m
  else
    let m := set_Pkgs (appendIncluded (ImportPath m) (Pkgs m) includedPackages) m in
    let marked :=
      map_imap (fun vendorFile toggle =>
                  Some (markLoop m vendorFile (Pkgs m) toggle)) (VendorList m) in
    set_VendorList (filter (fun kv => kv.2 = true) marked) m.

(** ** The vendor planner *)

(** Lines 150 to 157: the destination of one vendor file. *)
Definition vendorDest (m : Mod) (vendorFile : string) : outcome string :=
  let x := Strings.Index vendorFile (Dir m) in
  if x <? 0 then Fatal "Error! vendor file doesn't belong to mod, strange."
  else
    let localPath :=
      ImportPath m +:+ Strings.slice_from vendorFile (Strings.len (Dir m)) in
    Ok ("./vendor/" +:+ localPath).

(** [for vendorFile := range mod.VendorList]: source and destination of
    every copy.  Go ranges over a map in no fixed order; the list follows
    the order of [map_to_list]. *)
Fixpoint planFiles (m : Mod) (vendorFiles : list string)
  : outcome (list (string * string)) :=
  match vendorFiles with
  | [] => Ok []
  | vendorFile :: rest =>
      localFile <- vendorDest m vendorFile ;;
      copies <- planFiles m rest ;;
      Ok ((vendorFile, localFile) :: copies)
  end.

Fixpoint planMods (mods : list Mod) : outcome (list (string * string)) :=
  match mods with
  | [] => Ok []
  | m :: rest =>
      copies <- planFiles m (map fst (map_to_list (VendorList m))) ;;
      copies' <- planMods rest ;;
      Ok (copies ++ copies')
  end.

(** ** The run

    [main] up to the calls of [os.MkdirAll] and [copyFile]: the copies it
    asks for.  [manifest] holds the lines the scanner reads from
    [vendor/modules.txt]. *)
Definition main (env : Env) (copyPatFlag includePackagesFlag : string)
  (manifest : list string) : outcome (list (string * string)) :=
  cwd <- Getwd env ;;
  let modPath := Filepath.Join [cwd; "go.mod"] in
  if IsNotExist env modPath then
    Fatal (modPath +:+ " not found. Run `go mod vendor` and try again.")
  else
    let modtxtPath := Filepath.Join [cwd; "vendor"; "modules.txt"] in
    if IsNotExist env modtxtPath then
      Fatal (modtxtPath +:+ " not found. Run `go mod vendor` and try again.")
    else
      let copyPat := Strings.Split (Strings.TrimSpace copyPatFlag) " " in
      if (length copyPat =? 0)%nat then Fatal "-copy argument is empty."
      else
        let includedPackages :=
          Strings.Split (Strings.TrimSpace includePackagesFlag) " " in
        st <- parseLines env copyPat parser0 manifest ;;
        planMods (map (filterMod includedPackages) (records st)).

(** ** Predicates used in the statements *)

(** The byte [c] occurs in [s]. *)
Fixpoint has_byte (c : ascii) (s : string) : bool :=
  match s with
  | EmptyString => false
  | String b s' => Ascii.eqb b c || has_byte c s'
  end.

(** A path element that [filepath.Clean] copies as it is: not empty, not
    [.], not [..], without a separator. *)
Definition plain (e : string) : Prop :=
  e ≠ "" ∧ e ≠ "." ∧ e ≠ ".." ∧ has_byte "/" e = false.

(** The states of the loop of [filepath.Clean]: a rooted path has no
    leading [..], and every element kept is plain. *)
Definition clean_state (rooted : bool) (st : nat * list string) : Prop :=
  (rooted = true → st.1 = O) ∧ Forall plain st.2.

(** Every pointer of [modules] points into the heap. *)
Definition pointers_valid (st : parser) : Prop :=
  Forall (fun p => (p < length (heap st))%nat) (modules st).

(** A record as the collector leaves it: every candidate with its flag
    unset. *)
Definition collected (m : Mod) : Prop :=
  map_Forall (fun _ toggle => toggle = false) (VendorList m).

(** A record whose cache directory comes from [pkgModPath]. *)
Definition resolved (env : Env) (m : Mod) : Prop :=
  ∃ importPath version, Dir m = pkgModPath env importPath version.

(** What holds of the parser between two turns of its loop. *)
Definition parser_inv (env : Env) (st : parser) : Prop :=
  pointers_valid st ∧
  Forall collected (heap st) ∧
  Forall (fun p => ∃ m, heap st !! p = Some m ∧ resolved env m) (modules st).

(** A package line: not empty, and not beginning with [#]. *)
Definition isPackageLine (line : string) : Prop :=
  line ≠ "" ∧ Strings.HasPrefix line "#" = false.

(** ASCII text: every byte is below 128. *)
Fixpoint isASCII (s : string) : bool :=
  match s with
  | EmptyString => true
  | String c s' => (nat_of_ascii c <? 128)%nat && isASCII s'
  end.

(** The encoding of an import path, byte by byte. *)
Fixpoint escapeAll (importPath : string) : string :=
  match importPath with
  | EmptyString => ""
  | String char rest => escape char +:+ escapeAll rest
  end.

(** ** Blocks of a manifest

    A manifest in the format of [go mod vendor]: for each module a line
    with [#], the import path, the version and, for a replaced module,
    [=>] with the path and version of the replacement, the tokens one
    space apart; then the lines of its packages. *)

Record block : Type := mkBlock {
  blockPath : string;
  blockVersion : string;
  blockReplace : option (string * string);
  blockPkgs : list string
}.

Definition blockTokens (b : block) : list string :=
  "#" :: blockPath b :: blockVersion b ::
  match blockReplace b with
  | Some (sourcePath, sourceVersion) => ["=>"; sourcePath; sourceVersion]
  | None => []
  end.

Definition blockLines (b : block) : list string :=
  Strings.Join (blockTokens b) " " :: blockPkgs b.

(** The cache directory of the module of a block. *)
Definition blockDir (env : Env) (b : block) : string :=
  match blockReplace b with
  | Some (sourcePath, sourceVersion) => pkgModPath env sourcePath sourceVersion
  | None => pkgModPath env (blockPath b) (blockVersion b)
  end.

(** The record of a block, with the candidates [vendorList]. *)
Definition blockMod (env : Env) (b : block) (vendorList : gmap string bool) : Mod :=
  mkMod (blockPath b)
        (match blockReplace b with Some (sourcePath, _) => sourcePath | None => "" end)
        (blockVersion b)
        (match blockReplace b with Some (_, sourceVersion) => sourceVersion | None => "" end)
        (blockDir env b) (blockPkgs b) vendorList.

(** No token holds a space, the version is not [=>], and the package
    lines are package lines. *)
Definition blockOk (b : block) : Prop :=
  Forall (fun t => has_byte " " t = false) (blockTokens b) ∧
  blockVersion b ≠ "=>" ∧
  Forall isPackageLine (blockPkgs b).

(** ** Scenarios

    Concrete environments and records the statements below are tried on. *)

Module Scenario.

(** A cache with one module, [example.com/foo] at [v1.0.0], holding three
    header files. *)
Definition fooDir : string := "/g/pkg/mod/example.com/foo@v1.0.0".

Definition fooFiles : list string :=
  [fooDir +:+ "/bar/x.h"; fooDir +:+ "/baz/y.h"; fooDir +:+ "/barbecue/x.h"].

Definition envFoo : Env :=
  mkEnv "/g" "/home/u" (Ok "/w") (fun _ => false)
    (fun p => if String.eqb p (fooDir +:+ "/**/*.h") then inl fooFiles
              else if String.eqb p fooDir then inl [fooDir]
              else inl []).

(** The patterns of [-copy="**/*.h"]. *)
Definition copyPat : list string := ["**/*.h"].

Definition fooMod : Mod :=
  mkMod "example.com/foo" "" "v1.0.0" "" fooDir ["example.com/foo/bar"]
        (addMatches ∅ fooFiles).

(** The block of [example.com/foo] in the manifest. *)
Definition fooBlock : block :=
  mkBlock "example.com/foo" "v1.0.0" None ["example.com/foo/bar"].

(** A block replaced by [example.com/foo] at [v1.0.0]. *)
Definition zzzBlock : block :=
  mkBlock "example.com/zzz" "v0.9.0" (Some ("example.com/foo", "v1.0.0"))
          ["example.com/zzz"; "example.com/zzz/sub"].

(** A cache in which a file outside the directory of module [m] carries
    that directory inside its path. *)
Definition strayFile : string := "/x/g/pkg/mod/m@v1/a.h".

Definition envStray : Env :=
  mkEnv "/g" "/home/u" (Ok "/w") (fun _ => false)
    (fun p => if String.eqb p strayFile then inl [strayFile] else inl []).

Definition strayMod : Mod :=
  mkMod "m" "" "v1" "" "/g/pkg/mod/m@v1" ["m/../../../../x"]
        {[ strayFile := true ]}.

End Scenario.

(** * Properties *)

(** ** Facts on the string operations *)

Section StringFacts.

Lemma append_nil_r (s : string) : s +:+ "" = s.
Proof. induction s as [|c s IH]; simpl; [reflexivity | now rewrite IH]. Qed.

Lemma append_assoc (s t u : string) : (s +:+ t) +:+ u = s +:+ (t +:+ u).
Proof. induction s as [|c s IH]; simpl; [reflexivity | now rewrite IH]. Qed.

Lemma HasPrefix_app (p t : string) : Strings.HasPrefix (p +:+ t) p = true.
Proof.
  induction p as [|c p IH]; simpl; [reflexivity |].
  now rewrite Ascii.eqb_refl.
Qed.

Lemma HasPrefix_slice (s p : string) :
  Strings.HasPrefix s p = true → s = p +:+ Strings.slice_from s (Strings.len p).
Proof.
  revert s. induction p as [|a p IH]; intros s H; simpl in *; [reflexivity |].
  destruct s as [|b s]; [discriminate |].
  destruct (Ascii.eqb a b) eqn:E; [| discriminate].
  apply Ascii.eqb_eq in E. subst b. f_equal. now apply IH.
Qed.

Lemma HasPrefix_iff (s p : string) :
  Strings.HasPrefix s p = true ↔ ∃ t, s = p +:+ t.
Proof.
  split.
  - intros H. eexists. now apply HasPrefix_slice.
  - intros [t ->]. apply HasPrefix_app.
Qed.

Lemma HasPrefix_len (s p : string) :
  Strings.HasPrefix s p = true → (Strings.len p ≤ Strings.len s)%nat.
Proof.
  revert s. induction p as [|a p IH]; intros s H; simpl in *; [lia |].
  destruct s as [|b s]; [discriminate |].
  destruct (Ascii.eqb a b); [| discriminate].
  apply IH in H. unfold Strings.len in *. simpl. lia.
Qed.

Lemma slice_from_app (p t : string) :
  Strings.slice_from (p +:+ t) (Strings.len p) = t.
Proof. induction p as [|c p IH]; simpl; [now destruct t | exact IH]. Qed.

Lemma index_of_zero (s substr : string) :
  Strings.index_of s substr = Some 0%nat ↔ Strings.HasPrefix s substr = true.
Proof.
  destruct s as [|c s]; simpl.
  - destruct (Strings.HasPrefix "" substr) eqn:E; simpl; split; congruence.
  - destruct (Strings.HasPrefix (String c s) substr) eqn:E; simpl.
    + tauto.
    + destruct (Strings.index_of s substr); simpl; split; congruence.
Qed.

(** [strings.Index(s, substr) == 0] says that [s] begins with [substr]. *)
Lemma Index_zero (s substr : string) :
  Strings.Index s substr = 0 ↔ Strings.HasPrefix s substr = true.
Proof.
  rewrite <- index_of_zero. unfold Strings.Index.
  destruct (Strings.index_of s substr) as [n|]; split; intros H.
  - f_equal. lia.
  - injection H as ->. reflexivity.
  - lia.
  - discriminate.
Qed.

Lemma Index_eqb_zero (s substr : string) :
  (Strings.Index s substr =? 0) = Strings.HasPrefix s substr.
Proof.
  destruct (Strings.HasPrefix s substr) eqn:E.
  - apply Z.eqb_eq, Index_zero, E.
  - apply Z.eqb_neq. intros H. apply Index_zero in H. congruence.
Qed.

Lemma Index_app (p t : string) : Strings.Index (p +:+ t) p = 0.
Proof. apply Index_zero, HasPrefix_app. Qed.

Lemma index_of_len (s substr : string) (n : nat) :
  Strings.index_of s substr = Some n →
  (n + Strings.len substr ≤ Strings.len s)%nat.
Proof.
  revert n. induction s as [|c s IH]; intros n; simpl.
  - destruct (Strings.HasPrefix "" substr) eqn:E; [| discriminate].
    intros [= <-]. apply HasPrefix_len in E. simpl in *. lia.
  - destruct (Strings.HasPrefix (String c s) substr) eqn:E.
    + intros [= <-]. apply HasPrefix_len in E. simpl in *. lia.
    + destruct (Strings.index_of s substr) as [k|]; [| discriminate].
      simpl. intros [= <-]. specialize (IH k eq_refl).
      unfold Strings.len in *. simpl. lia.
Qed.

(** Where the program slices by [len(substr)] after [strings.Index] found
    [substr], the slice is in range. *)
Lemma Index_len_le (s substr : string) :
  0 ≤ Strings.Index s substr → (Strings.len substr ≤ Strings.len s)%nat.
Proof.
  unfold Strings.Index.
  destruct (Strings.index_of s substr) as [n|] eqn:E; [| lia].
  intros _. apply index_of_len in E. lia.
Qed.

(** [strings.Split] never returns an empty slice. *)
Lemma Split_length (s : string) (sep : ascii) :
  (1 ≤ length (Strings.Split s sep))%nat.
Proof.
  induction s as [|c s IH]; simpl; [lia |].
  destruct (Ascii.eqb c sep); simpl; [lia |].
  destruct (Strings.Split s sep); simpl in *; lia.
Qed.

End StringFacts.

(** ** The vendor planner *)

Section Planner.

(** C2.  A vendor file whose path is the cache directory of its module
    followed by a suffix is copied to [./vendor/], the import path of the
    module and that suffix, unchanged. *)
Theorem vendorDest_under_Dir (m : Mod) (suffix : string) :
  vendorDest m (Dir m +:+ suffix) = Ok ("./vendor/" +:+ ImportPath m +:+ suffix).
Proof.
  unfold vendorDest. rewrite Index_app, slice_from_app. reflexivity.
Qed.

(** The check of the planner lets a file through as soon as the cache
    directory occurs anywhere in its path. *)
Lemma vendorDest_inner (m : Mod) (vendorFile : string) :
  0 ≤ Strings.Index vendorFile (Dir m) →
  vendorDest m vendorFile =
    Ok ("./vendor/" +:+ ImportPath m +:+
        Strings.slice_from vendorFile (Strings.len (Dir m))).
Proof.
  intros H. unfold vendorDest.
  destruct (Strings.Index vendorFile (Dir m) <? 0) eqn:E; [lia | reflexivity].
Qed.

(** A file without the cache directory anywhere in its path ends the
    run. *)
Lemma vendorDest_absent (m : Mod) (vendorFile : string) :
  Strings.Index vendorFile (Dir m) < 0 →
  vendorDest m vendorFile
  = Fatal "Error! vendor file doesn't belong to mod, strange.".
Proof.
  intros H. unfold vendorDest.
  destruct (Strings.Index vendorFile (Dir m) <? 0) eqn:E; [reflexivity | lia].
Qed.

(** C7.  The file [/x/g/pkg/mod/m@v1/a.h] does not begin with the cache
    directory [/g/pkg/mod/m@v1] of module [m], and it is selected for
    [-copy=../../../../x/g/pkg/mod/m@v1/a.h] and
    [-include=m/../../../../x]; the run does not end with the consistency
    error, it asks for a copy to [./vendor/mv1/a.h]. *)
Theorem vendorDest_stray_file :
  Strings.HasPrefix Scenario.strayFile (Dir Scenario.strayMod) = false ∧
  vendorDest Scenario.strayMod Scenario.strayFile = Ok "./vendor/mv1/a.h" ∧
  main Scenario.envStray "../../../../x/g/pkg/mod/m@v1/a.h" "m/../../../../x"
       ["# m v1"]
    = Ok [(Scenario.strayFile, "./vendor/mv1/a.h")].
Proof. repeat split; vm_compute; reflexivity. Qed.

End Planner.

(** ** The pattern list *)

Section Patterns.

(** The test [len(copyPat) == 0] of [main] never holds: once the working
    directory and the two files are found, a run goes on to the parser
    with the patterns [strings.Split] returns. *)
Lemma main_past_preflight (env : Env) (cwd copyPatFlag includePackagesFlag : string)
  (manifest : list string) :
  Getwd env = Ok cwd →
  IsNotExist env (Filepath.Join [cwd; "go.mod"]) = false →
  IsNotExist env (Filepath.Join [cwd; "vendor"; "modules.txt"]) = false →
  main env copyPatFlag includePackagesFlag manifest =
    (st <- parseLines env (Strings.Split (Strings.TrimSpace copyPatFlag) " ")
             parser0 manifest ;;
     planMods (map (filterMod
                      (Strings.Split (Strings.TrimSpace includePackagesFlag) " "))
                   (records st))).
Proof.
  intros Hwd Hmod Htxt. unfold main. rewrite Hwd. simpl.
  rewrite Hmod, Htxt.
  pose proof (Split_length (Strings.TrimSpace copyPatFlag) " ") as Hlen.
  destruct (length (Strings.Split (Strings.TrimSpace copyPatFlag) " ") =? 0)%nat
    eqn:E; [| reflexivity].
  apply Nat.eqb_eq in E. lia.
Qed.

(** C3.  With an empty [-copy] the pattern list holds one pattern, the
    empty string; the run is not stopped: the manifest is parsed, the
    pattern matches the cache directory itself, and a copy of it is asked
    for. *)
Theorem main_empty_copy_flag :
  Strings.TrimSpace "" = "" ∧
  Strings.Split (Strings.TrimSpace "") " " = [""] ∧
  main Scenario.envFoo "" "" ["# example.com/foo v1.0.0"; "example.com/foo"]
    = Ok [(Scenario.fooDir, "./vendor/example.com/foo")].
Proof. repeat split; vm_compute; reflexivity. Qed.

End Patterns.

(** ** Facts on [strings.Split] and [filepath.Clean] *)

Section CleanFacts.

Lemma Split_app_sep (s t : string) (sep : ascii) :
  Strings.Split (s +:+ String sep t) sep
  = Strings.Split s sep ++ Strings.Split t sep.
Proof.
  induction s as [|c s IH]; simpl.
  - now rewrite Ascii.eqb_refl.
  - destruct (Ascii.eqb c sep); [now rewrite IH |].
    rewrite IH. destruct (Strings.Split s sep) as [|h tl] eqn:E; [| reflexivity].
    pose proof (Split_length s sep) as Hl. rewrite E in Hl. simpl in Hl. lia.
Qed.

Lemma Split_no_sep (s : string) (sep : ascii) :
  has_byte sep s = false → Strings.Split s sep = [s].
Proof.
  induction s as [|c s IH]; simpl; [reflexivity |].
  intros H. apply orb_false_iff in H as [Hc Hs].
  rewrite Hc, (IH Hs). reflexivity.
Qed.

Lemma Split_elems (s : string) (sep : ascii) :
  Forall (fun e => has_byte sep e = false) (Strings.Split s sep).
Proof.
  induction s as [|c s IH]; simpl.
  - constructor; [reflexivity | constructor].
  - destruct (Ascii.eqb c sep) eqn:Ec.
    + constructor; [reflexivity | exact IH].
    + destruct (Strings.Split s sep) as [|h tl].
      * constructor; [simpl; now rewrite Ec | constructor].
      * inversion IH; subst. constructor; [simpl; now rewrite Ec | assumption].
Qed.

Lemma Join_cons (e e' : string) (rest : list string) :
  Strings.Join (e :: e' :: rest) "/" = e +:+ String "/" (Strings.Join (e' :: rest) "/").
Proof. reflexivity. Qed.

(** Splitting what was joined gives the elements back. *)
Lemma Split_Join (l : list string) :
  l ≠ [] → Forall (fun e => has_byte "/" e = false) l →
  Strings.Split (Strings.Join l "/") "/" = l.
Proof.
  induction l as [|e l IH]; [congruence |].
  intros _ H. inversion H as [|? ? He Hl]; subst.
  destruct l as [|e' l].
  - simpl. now apply Split_no_sep.
  - rewrite Join_cons, Split_app_sep, (Split_no_sep e _ He).
    rewrite IH; [reflexivity | congruence | assumption].
Qed.

Lemma plain_step (rooted : bool) (st : nat * list string) (e : string) :
  plain e → Filepath.clean_elem rooted st e = (st.1, e :: st.2).
Proof.
  intros (H1 & H2 & H3 & _). destruct st as [dd out]. unfold Filepath.clean_elem.
  destruct (String.eqb_spec e ""); [congruence |].
  destruct (String.eqb_spec e "."); [congruence |].
  destruct (String.eqb_spec e ".."); [congruence | reflexivity].
Qed.

Lemma clean_elem_state (rooted : bool) (st : nat * list string) (e : string) :
  has_byte "/" e = false → clean_state rooted st →
  clean_state rooted (Filepath.clean_elem rooted st e).
Proof.
  intros He [Hr Hout]. destruct st as [dd out]. simpl in *.
  unfold Filepath.clean_elem.
  destruct (String.eqb_spec e ""); [now split |].
  destruct (String.eqb_spec e "."); [now split |].
  destruct (String.eqb_spec e "..").
  - destruct out as [|top out].
    + destruct rooted; [now split |]. split; [discriminate | constructor].
    + inversion Hout; subst. now split.
  - split; [exact Hr |]. constructor; [| exact Hout]. now repeat split.
Qed.

Lemma fold_clean_state (rooted : bool) (elems : list string) (st : nat * list string) :
  Forall (fun e => has_byte "/" e = false) elems → clean_state rooted st →
  clean_state rooted (fold_left (Filepath.clean_elem rooted) elems st).
Proof.
  revert st. induction elems as [|e elems IH]; intros st H Hst; simpl; [exact Hst |].
  inversion H; subst. apply IH; [assumption |]. now apply clean_elem_state.
Qed.

(** Plain elements are pushed one after the other. *)
Lemma fold_plain (rooted : bool) (elems out : list string) (dd : nat) :
  Forall plain elems →
  fold_left (Filepath.clean_elem rooted) elems (dd, out) = (dd, rev elems ++ out).
Proof.
  revert out. induction elems as [|e elems IH]; intros out H; [reflexivity |].
  inversion H; subst. cbn [fold_left rev].
  rewrite (plain_step rooted (dd, out) e) by assumption.
  cbn [fst snd]. rewrite IH by assumption. now rewrite <- app_assoc.
Qed.

(** Leading [..] elements of an unrooted path are counted. *)
Lemma fold_dotdots (n dd : nat) :
  fold_left (Filepath.clean_elem false) (repeat ".." n) (dd, [])
  = ((dd + n)%nat, []).
Proof.
  revert dd. induction n as [|n IH]; intros dd; simpl.
  - f_equal. lia.
  - rewrite IH. f_equal. lia.
Qed.

(** The model on entries of the tables of the tests of [path/filepath]. *)
Example Clean_table :
  map Filepath.Clean
    ["abc"; "abc/def"; "."; ".."; "../.."; "../../abc"; "/abc"; "/"; "";
     "abc/"; "./"; "../"; "../../"; "/abc/"; "abc//def//ghi"; "abc//";
     "abc/./def"; "/./abc/def"; "abc/."; "abc/def/ghi/../jkl";
     "abc/def/../ghi/../jkl"; "abc/def/.."; "abc/def/../.."; "/abc/def/../..";
     "abc/def/../../.."; "/abc/def/../../..";
     "abc/def/../../../ghi/jkl/../../../mno"; "/../abc";
     "abc/./../def"; "abc//./../def"; "abc/../../././../def"]
  = ["abc"; "abc/def"; "."; ".."; "../.."; "../../abc"; "/abc"; "/"; ".";
     "abc"; "."; ".."; "../.."; "/abc"; "abc/def/ghi"; "abc";
     "abc/def"; "/abc/def"; "abc"; "abc/def/jkl";
     "abc/jkl"; "abc"; "."; "/";
     ".."; "/";
     "../../mno"; "/abc";
     "def"; "def"; "../../def"].
Proof. vm_compute. reflexivity. Qed.

Example Join_table :
  map Filepath.Join
    [[]; [""]; ["a"]; ["a"; "b"]; ["a"; ""]; [""; "b"]; ["/"; "a"]; ["/"; ""];
     ["a/"; "b"]; ["a/"; ""]; [""; ""]; ["/"; "a"; "b"]]
  = [""; ""; "a"; "a/b"; "a"; "b"; "/a"; "/"; "a/b"; "a"; ""; "/a/b"].
Proof. vm_compute. reflexivity. Qed.

Lemma Clean_unfold (path : string) :
  path ≠ "" →
  Filepath.Clean path =
    Filepath.render (Strings.HasPrefix path "/")
      (fold_left (Filepath.clean_elem (Strings.HasPrefix path "/"))
                 (Strings.Split path "/") (O, [])).
Proof.
  destruct path as [|c path]; [congruence |]. intros _.
  unfold Filepath.Clean. cbn [Strings.HasPrefix].
  rewrite (Ascii.eqb_sym "/" c). now destruct (Ascii.eqb c "/").
Qed.

Lemma Join_head (e : string) (l : list string) :
  plain e ∨ e = ".." → 
  Strings.Join (e :: l) "/" ≠ "" ∧ Strings.HasPrefix (Strings.Join (e :: l) "/") "/" = false.
Proof.
  intros He.
  assert (∃ c e', e = String c e' ∧ Ascii.eqb "/" c = false) as (c & e' & -> & Hc).
  { destruct He as [(H1 & _ & _ & H4) | ->].
    - destruct e as [|c e']; [congruence |]. exists c, e'. split; [reflexivity |].
      simpl in H4. apply orb_false_iff in H4 as [H4 _].
      now rewrite Ascii.eqb_sym.
    - now exists "."%char, ".". }
  destruct l as [|e'' l]; cbn [Strings.Join String.append Strings.HasPrefix];
    rewrite Hc; now split.
Qed.

(** The elements of a cleaned path: the leading [..], then the elements
    kept, in order. *)
Lemma clean_state_elems (rooted : bool) (dd : nat) (out : list string) :
  clean_state rooted (dd, out) →
  Forall (fun e => plain e ∨ e = "..") (repeat ".." dd ++ rev out).
Proof.
  intros [_ Hout]. simpl in Hout. apply Forall_app. split.
  - apply Forall_forall. intros e He. apply list_elem_of_In, repeat_spec in He. now right.
  - apply Forall_rev. eapply Forall_impl; [exact Hout |]. intros e He. now left.
Qed.

Lemma elems_no_sep (l : list string) :
  Forall (fun e => plain e ∨ e = "..") l →
  Forall (fun e => has_byte "/" e = false) l.
Proof.
  intros Hl. eapply Forall_impl; [exact Hl |].
  intros e [(_ & _ & _ & H) | ->]; [exact H | reflexivity].
Qed.

Lemma fold_elems (rooted : bool) (dd : nat) (out : list string) :
  clean_state rooted (dd, out) →
  fold_left (Filepath.clean_elem rooted) (repeat ".." dd ++ rev out) (O, [])
  = (dd, out).
Proof.
  intros [Hr Hout]. simpl in *. rewrite fold_left_app.
  assert (fold_left (Filepath.clean_elem rooted) (repeat ".." dd) (O, [])
          = (dd, [])) as ->.
  { destruct rooted.
    - rewrite (Hr eq_refl). reflexivity.
    - apply (fold_dotdots dd 0). }
  rewrite fold_plain by now apply Forall_rev.
  now rewrite rev_involutive, app_nil_r.
Qed.

(** A cleaned path is read back by the loop as the state that wrote it. *)
Lemma render_fixed (rooted : bool) (st : nat * list string) :
  clean_state rooted st →
  Filepath.render rooted st ≠ "" ∧
  Strings.HasPrefix (Filepath.render rooted st) "/" = rooted ∧
  fold_left (Filepath.clean_elem rooted)
            (Strings.Split (Filepath.render rooted st) "/") (O, []) = st.
Proof.
  destruct st as [dd out]. intros Hst.
  pose proof (clean_state_elems _ _ _ Hst) as Hel.
  pose proof (fold_elems _ _ _ Hst) as Hfold.
  pose proof (elems_no_sep _ Hel) as Hns.
  unfold Filepath.render.
  destruct (repeat ".." dd ++ rev out) as [|e l] eqn:El.
  - (* nothing written *)
    simpl in Hfold. destruct rooted; simpl; (split; [congruence |]);
      (split; [reflexivity | exact Hfold]).
  - inversion Hel as [|? ? He _]; subst.
    destruct (Join_head e l He) as [Hne Hpre].
    pose proof (Split_Join (e :: l) ltac:(congruence) Hns) as Hsp.
    destruct rooted.
    + change ("/" +:+ Strings.Join (e :: l) "/")
        with (String "/" (Strings.Join (e :: l) "/")).
      cbn [String.eqb]. split; [congruence |]. split; [reflexivity |].
      change (String "/" (Strings.Join (e :: l) "/"))
        with ("" +:+ String "/" (Strings.Join (e :: l) "/")).
      rewrite Split_app_sep, Hsp. exact Hfold.
    + destruct (String.eqb_spec (Strings.Join (e :: l) "/") ""); [congruence |].
      split; [assumption |]. split; [assumption |]. rewrite Hsp. exact Hfold.
Qed.

Lemma Clean_is_render (path : string) :
  ∃ rooted st, clean_state rooted st ∧ Filepath.Clean path = Filepath.render rooted st.
Proof.
  destruct (String.eqb_spec path "") as [-> | Hne].
  - exists false, (O, []). split; [| reflexivity]. split; [discriminate | constructor].
  - eexists _, _. split; [| now apply Clean_unfold].
    apply fold_clean_state; [apply Split_elems |].
    split; [reflexivity | constructor].
Qed.

(** [filepath.Clean] returns its result unchanged when applied again. *)
Lemma Clean_idempotent (path : string) :
  Filepath.Clean (Filepath.Clean path) = Filepath.Clean path.
Proof.
  destruct (Clean_is_render path) as (rooted & st & Hst & ->).
  destruct (render_fixed rooted st Hst) as (Hne & Hpre & Hfold).
  rewrite (Clean_unfold _ Hne), Hpre, Hfold. reflexivity.
Qed.

Lemma HasPrefix_append (s t p : string) :
  s ≠ "" → Strings.HasPrefix (s +:+ t) "/" = Strings.HasPrefix s "/".
Proof. destruct s; [congruence | reflexivity]. Qed.

(** Joining a cleaned path with the empty string gives it back. *)
Lemma Join_Clean_empty (path : string) :
  Filepath.Join [Filepath.Clean path; ""] = Filepath.Clean path.
Proof.
  destruct (Clean_is_render path) as (rooted & st & Hst & ->).
  destruct (render_fixed rooted st Hst) as (Hne & Hpre & Hfold).
  unfold Filepath.Join. cbn [Filepath.from_nonempty].
  destruct (String.eqb_spec (Filepath.render rooted st) ""); [congruence |].
  cbn [Strings.Join].
  assert (Filepath.render rooted st +:+ "/" +:+ "" ≠ "") as Hne'.
  { destruct (Filepath.render rooted st); [congruence | discriminate]. }
  rewrite (Clean_unfold _ Hne'), (HasPrefix_append _ _ "/" Hne), Hpre.
  change ("/" +:+ "") with (String "/" "").
  rewrite Split_app_sep, fold_left_app, Hfold. now destruct st.
Qed.

Lemma Join_String (c : ascii) (h : string) (t : list string) :
  Strings.Join (String c h :: t) "/" = String c (Strings.Join (h :: t) "/").
Proof. destruct t; reflexivity. Qed.

(** Joining what was split gives the string back. *)
Lemma Join_Split (s : string) : Strings.Join (Strings.Split s "/") "/" = s.
Proof.
  induction s as [|c s IH]; [reflexivity |]. cbn [Strings.Split].
  pose proof (Split_length s "/") as Hl.
  destruct (Strings.Split s "/") as [|h t] eqn:E; [simpl in Hl; lia |].
  destruct (Ascii.eqb_spec c "/") as [-> | Hc].
  - rewrite Join_cons, IH. reflexivity.
  - rewrite Join_String, IH. reflexivity.
Qed.

Lemma Join_app (l xs : list string) :
  l ≠ [] → xs ≠ [] →
  Strings.Join (l ++ xs) "/" = Strings.Join l "/" +:+ "/" +:+ Strings.Join xs "/".
Proof.
  intros Hl Hxs. destruct xs as [|x xs]; [congruence |]. clear Hxs.
  induction l as [|e l IH]; [congruence |]. clear Hl.
  destruct l as [|e' l].
  - reflexivity.
  - change ((e :: e' :: l) ++ x :: xs) with (e :: e' :: (l ++ x :: xs)).
    rewrite !Join_cons.
    change (e' :: l ++ x :: xs) with ((e' :: l) ++ x :: xs).
    rewrite IH by congruence.
    change (String "/" (Strings.Join (e' :: l) "/" +:+ "/" +:+ Strings.Join (x :: xs) "/"))
      with (String "/" (Strings.Join (e' :: l) "/") +:+ "/" +:+ Strings.Join (x :: xs) "/").
    now rewrite append_assoc.
Qed.

(** The buffer when something was written. *)
Lemma render_elems (rooted : bool) (dd : nat) (out : list string) :
  clean_state rooted (dd, out) → repeat ".." dd ++ rev out ≠ [] →
  Filepath.render rooted (dd, out)
  = (if rooted then "/" else "") +:+ Strings.Join (repeat ".." dd ++ rev out) "/".
Proof.
  intros Hst Hne. pose proof (clean_state_elems _ _ _ Hst) as Hel.
  unfold Filepath.render.
  destruct (repeat ".." dd ++ rev out) as [|e l]; [congruence |].
  inversion Hel as [|? ? He _]; subst.
  destruct (Join_head e l He) as [Hj _].
  destruct rooted; [reflexivity |].
  now destruct (String.eqb_spec (Strings.Join (e :: l) "/") "").
Qed.

(** Plain elements joined to a path that ends in a plain element are
    appended as they are. *)
Lemma Clean_append_plain (y x : string) :
  y ≠ "" →
  (fold_left (Filepath.clean_elem (Strings.HasPrefix y "/"))
             (Strings.Split y "/") (O, [])).2 ≠ [] →
  Forall plain (Strings.Split x "/") →
  Filepath.Clean (y +:+ "/" +:+ x) = Filepath.Clean y +:+ "/" +:+ x.
Proof.
  intros Hy Hout Hx.
  assert (y +:+ "/" +:+ x ≠ "") as Hyx by (destruct y; [congruence | discriminate]).
  rewrite (Clean_unfold _ Hyx), (Clean_unfold _ Hy), (HasPrefix_append _ _ "/" Hy).
  set (rooted := Strings.HasPrefix y "/") in *.
  change ("/" +:+ x) with (String "/" x).
  rewrite Split_app_sep, fold_left_app.
  assert (clean_state rooted (O, [])) as Hst0
    by (split; [reflexivity | constructor]).
  pose proof (fold_clean_state rooted (Strings.Split y "/") (O, [])
                (Split_elems y "/") Hst0) as Hst.
  destruct (fold_left (Filepath.clean_elem rooted) (Strings.Split y "/") (O, []))
    as [dd out].
  simpl in Hout. rewrite (fold_plain _ _ _ _ Hx).
  assert (clean_state rooted (dd, rev (Strings.Split x "/") ++ out)) as Hst'.
  { destruct Hst as [Hr Ho]. split; [exact Hr |]. simpl.
    apply Forall_app. split; [now apply Forall_rev | exact Ho]. }
  assert (repeat ".." dd ++ rev out ≠ []) as Hne.
  { destruct out as [|o out]; [congruence |]. simpl.
    intros H. apply app_eq_nil in H as [_ H]. now apply app_eq_nil in H as [_ H]. }
  rewrite (render_elems _ _ _ Hst Hne).
  rewrite render_elems; [| exact Hst' |].
  - rewrite rev_app_distr, rev_involutive, app_assoc.
    rewrite Join_app; [| exact Hne |].
    + rewrite Join_Split. now rewrite !append_assoc.
    + pose proof (Split_length x "/") as Hl.
      destruct (Strings.Split x "/"); [simpl in Hl; lia | congruence].
  - rewrite rev_app_distr, rev_involutive, app_assoc.
    intros H. apply app_eq_nil in H as [H _]. now apply Hne.
Qed.

(** A path that ends in a plain element leaves it on top of the elements
    written. *)
Lemma fold_ends_plain (rooted : bool) (y e : string) :
  plain e →
  (fold_left (Filepath.clean_elem rooted)
             (Strings.Split (y +:+ "/" +:+ e) "/") (O, [])).2 ≠ [].
Proof.
  intros He. change ("/" +:+ e) with (String "/" e).
  rewrite Split_app_sep, fold_left_app.
  rewrite (Split_no_sep e "/") by apply He. cbn [fold_left].
  now rewrite (plain_step _ _ _ He).
Qed.

End CleanFacts.

(** ** The path encoder *)

Section Encoder.

Lemma pkgModPath_Clean (env : Env) (importPath version : string) :
  ∃ path, pkgModPath env importPath version = Filepath.Clean path.
Proof.
  unfold pkgModPath, Filepath.Join. cbn [Filepath.from_nonempty].
  destruct (String.eqb (goPath env) ""); eexists; reflexivity.
Qed.

(** The cache directory of a module, joined with the empty suffix, is the
    cache directory. *)
Lemma Join_pkgModPath_empty (env : Env) (importPath version : string) :
  Filepath.Join [pkgModPath env importPath version; ""]
  = pkgModPath env importPath version.
Proof.
  destruct (pkgModPath_Clean env importPath version) as [path ->].
  apply Join_Clean_empty.
Qed.

Lemma normLoop_escapeAll (normPath importPath : string) :
  normLoop normPath importPath = normPath +:+ escapeAll importPath.
Proof.
  revert normPath. induction importPath as [|char rest IH]; intros normPath; simpl.
  - now rewrite append_nil_r.
  - now rewrite IH, append_assoc.
Qed.

Lemma has_byte_app (c : ascii) (s t : string) :
  has_byte c (s +:+ t) = has_byte c s || has_byte c t.
Proof.
  induction s as [|b s IH]; simpl; [reflexivity |].
  now rewrite IH, orb_assoc.
Qed.

(** The lowercase form of an uppercase letter is 32 above it, and is not
    uppercase. *)
Lemma ToLower_upper (char : ascii) :
  IsUpper char = true →
  nat_of_ascii (ToLower char) = (nat_of_ascii char + 32)%nat ∧
  IsUpper (ToLower char) = false.
Proof.
  destruct char as [[] [] [] [] [] [] [] []]; vm_compute; intros H;
    try discriminate H; split; reflexivity.
Qed.





Lemma plain_mod : plain "mod".
Proof. repeat split; discriminate. Qed.

(** With plain elements in the encoded import path and the version, the
    directory is the cache root, a separator, and [normPath@version]. *)
Lemma pkgModPath_plain (env : Env) (importPath version : string) :
  Forall plain (Strings.Split (escapeAll importPath +:+ "@" +:+ version) "/") →
  pkgModPath env importPath version
  = Filepath.Join [goPath env; "pkg"; "mod"]
    +:+ "/" +:+ escapeAll importPath +:+ "@" +:+ version.
Proof.
  intros H. unfold pkgModPath. rewrite normLoop_escapeAll.
  change ("" +:+ escapeAll importPath) with (escapeAll importPath).
  set (x := escapeAll importPath +:+ "@" +:+ version) in *.
  unfold Filepath.Join. cbn [Filepath.from_nonempty].
  destruct (String.eqb_spec (goPath env) "") as [_ | Hg].
  - change (String.eqb "pkg" "") with false. cbn iota.
    change (Strings.Join ["pkg"; "mod"; x] "/")
      with (("pkg" +:+ "/" +:+ "mod") +:+ "/" +:+ x).
    change (Strings.Join ["pkg"; "mod"] "/") with ("pkg" +:+ "/" +:+ "mod").
    apply Clean_append_plain; [discriminate | | exact H].
    apply fold_ends_plain, plain_mod.
  - set (g := goPath env) in *.
    replace (Strings.Join [g; "pkg"; "mod"; x] "/")
      with (((g +:+ "/" +:+ "pkg") +:+ "/" +:+ "mod") +:+ "/" +:+ x)
      by (cbn [Strings.Join]; now rewrite !append_assoc).
    replace (Strings.Join [g; "pkg"; "mod"] "/")
      with ((g +:+ "/" +:+ "pkg") +:+ "/" +:+ "mod")
      by (cbn [Strings.Join]; now rewrite !append_assoc).
    apply Clean_append_plain; [| apply fold_ends_plain, plain_mod | exact H].
    destruct g; [congruence | discriminate].
Qed.


End Encoder.

(** ** The scope filter *)

Section Filter.

Lemma importPathIntersect_prefix (basePath suffix : string) :
  importPathIntersect basePath (basePath +:+ suffix) = suffix.
Proof.
  unfold importPathIntersect. rewrite Index_app. simpl.
  apply slice_from_app.
Qed.


(** The slice of [importPathIntersect] is in range. *)
Lemma importPathIntersect_in_range (basePath pkgPath : string) :
  Strings.Index pkgPath basePath = 0 →
  (Strings.len basePath ≤ Strings.len pkgPath)%nat.
Proof. intros H. apply Index_len_le. lia. Qed.

Lemma appendIncluded_filter (importPath : string) (pkgs includedPackages : list string) :
  appendIncluded importPath pkgs includedPackages
  = pkgs ++ List.filter (fun pkg => Strings.HasPrefix pkg importPath)
                        includedPackages.
Proof.
  revert pkgs. induction includedPackages as [|pkg rest IH]; intros pkgs; simpl.
  - now rewrite app_nil_r.
  - rewrite IH. destruct (Strings.HasPrefix pkg importPath); [| reflexivity].
    now rewrite <- app_assoc.
Qed.

Lemma markLoop_true (m : Mod) (vendorFile : string) (pkgs : list string)
  (toggle : bool) :
  markLoop m vendorFile pkgs toggle = true ↔
  toggle = true ∨
  ∃ subpkg, subpkg ∈ pkgs ∧
            Strings.HasPrefix vendorFile (scopePath m subpkg) = true.
Proof.
  revert toggle. induction pkgs as [|subpkg rest IH]; intros toggle; simpl.
  - split; [now left |]. intros [H | (x & Hx & _)]; [exact H |].
    now apply elem_of_nil in Hx.
  - rewrite IH, Index_eqb_zero. split.
    + intros [H | (x & Hx & Hp)].
      * destruct (Strings.HasPrefix vendorFile (scopePath m subpkg)) eqn:E.
        -- right. exists subpkg. split; [left | exact E].
        -- now left.
      * right. exists x. split; [now right | exact Hp].
    + intros [H | (x & Hx & Hp)].
      * left. now destruct (Strings.HasPrefix vendorFile (scopePath m subpkg)).
      * apply elem_of_cons in Hx as [-> | Hx].
        -- left. now rewrite Hp.
        -- right. now exists x.
Qed.

Lemma markLoop_set_Pkgs (pkgs' : list string) (m : Mod) (vendorFile : string)
  (pkgs : list string) (toggle : bool) :
  markLoop (set_Pkgs pkgs' m) vendorFile pkgs toggle
  = markLoop m vendorFile pkgs toggle.
Proof.
  revert toggle. induction pkgs as [|subpkg rest IH]; intros toggle; simpl;
    [reflexivity | now rewrite IH].
Qed.

(** What the filter leaves of a candidate: its flag set, if some scoping
    directory begins its path; nothing otherwise. *)
Lemma filterMod_lookup (includedPackages : list string) (m : Mod) (vendorFile : string) :
  VendorList m ≠ ∅ →
  VendorList (filterMod includedPackages m) !! vendorFile =
    match VendorList m !! vendorFile with
    | Some toggle =>
        if markLoop m vendorFile
             (appendIncluded (ImportPath m) (Pkgs m) includedPackages) toggle
        then Some true else None
    | None => None
    end.
Proof.
  intros Hne. unfold filterMod.
  destruct (size (VendorList m) =? 0)%nat eqn:Hsz.
  { apply Nat.eqb_eq, map_size_empty_iff in Hsz. congruence. }
  cbn [VendorList set_VendorList set_Pkgs Pkgs ImportPath].
  set (pkgs := appendIncluded (ImportPath m) (Pkgs m) includedPackages).
  set (marked := map_imap _ _).
  assert (marked !! vendorFile =
          (fun toggle => markLoop m vendorFile pkgs toggle) <$> VendorList m !! vendorFile)
    as Hmarked.
  { unfold marked. rewrite map_lookup_imap.
    destruct (VendorList m !! vendorFile) as [toggle|]; simpl; [| reflexivity].
    now rewrite markLoop_set_Pkgs. }
  destruct (VendorList m !! vendorFile) as [toggle|] eqn:Hl; simpl in Hmarked.
  - destruct (markLoop m vendorFile pkgs toggle) eqn:Hm.
    + apply map_lookup_filter_Some. split; [exact Hmarked | reflexivity].
    + apply map_lookup_filter_None. right. intros x Hx. simpl.
      rewrite Hmarked in Hx. congruence.
  - apply map_lookup_filter_None. left. exact Hmarked.
Qed.

(** The collector enters every candidate with its flag unset. *)
Lemma addMatches_false (vendorList : gmap string bool) (matches : list string) :
  map_Forall (fun _ toggle => toggle = false) vendorList →
  map_Forall (fun _ toggle => toggle = false) (addMatches vendorList matches).
Proof.
  revert vendorList. induction matches as [|f rest IH]; intros vendorList H; simpl;
    [exact H |].
  apply IH. now apply map_Forall_insert_2.
Qed.

Lemma globLoop_false (env : Env) (copyPat : list string) (dir : string)
  (vendorList vendorList' : gmap string bool) :
  map_Forall (fun _ toggle => toggle = false) vendorList →
  globLoop env copyPat dir vendorList = Ok vendorList' →
  map_Forall (fun _ toggle => toggle = false) vendorList'.
Proof.
  revert vendorList. induction copyPat as [|pat rest IH]; intros vendorList H; simpl.
  - now intros [= <-].
  - destruct (Glob env (Filepath.Join [dir; pat])) as [matches | err];
      [| discriminate].
    apply IH. now apply addMatches_false.
Qed.

Lemma buildModVendorList_false (env : Env) (copyPat : list string) (m : Mod)
  (vendorList : gmap string bool) :
  buildModVendorList env copyPat m = Ok vendorList →
  map_Forall (fun _ toggle => toggle = false) vendorList.
Proof. apply globLoop_false, map_Forall_empty. Qed.

(** A candidate entered with its flag unset is kept exactly when some
    scoping directory begins its path. *)
Lemma filterMod_selected_iff (includedPackages : list string) (m : Mod)
  (vendorFile : string) :
  VendorList m ≠ ∅ → collected m → is_Some (VendorList m !! vendorFile) →
  is_Some (VendorList (filterMod includedPackages m) !! vendorFile) ↔
  ∃ subpkg,
    subpkg ∈ Pkgs m ++ List.filter (fun pkg => Strings.HasPrefix pkg (ImportPath m))
                                   includedPackages ∧
    Strings.HasPrefix vendorFile (scopePath m subpkg) = true.
Proof.
  intros Hne Hfalse [toggle Hl].
  rewrite (filterMod_lookup _ _ _ Hne), Hl, appendIncluded_filter.
  pose proof (Hfalse _ _ Hl) as ->.
  set (pkgs := Pkgs m ++ _).
  pose proof (markLoop_true m vendorFile pkgs false) as Hm.
  destruct (markLoop m vendorFile pkgs false).
  - split; [intros _ | intros _; now eexists].
    destruct Hm as [Hm _]. destruct (Hm eq_refl) as [? | ?]; [discriminate | assumption].
  - split; [intros [x Hx]; discriminate |].
    intros H. destruct Hm as [_ Hm]. discriminate Hm. now right.
Qed.


(** C10.  A candidate is compared with the scoping directory byte by byte:
    with the package [example.com/foo/bar] the scoping directory is
    [<cache-dir>/bar], and the candidate [<cache-dir>/barbecue/x.h], in
    another directory, begins with it and is kept. *)
Theorem filterMod_no_segment_boundary :
  ∃ (m : Mod) (vendorFile : string),
    Pkgs m = [ImportPath m +:+ "/bar"] ∧
    vendorFile = Dir m +:+ "/barbecue/x.h" ∧
    VendorList m !! vendorFile = Some false ∧
    scopePath m (ImportPath m +:+ "/bar") = Dir m +:+ "/bar" ∧
    Strings.HasPrefix vendorFile (Dir m +:+ "/bar/") = false ∧
    VendorList (filterMod [""] m) !! vendorFile = Some true ∧
    main Scenario.envFoo "**/*.h" ""
         ["# " +:+ ImportPath m +:+ " " +:+ Version m; ImportPath m +:+ "/bar"]
      = Ok [(Dir m +:+ "/bar/x.h", "./vendor/example.com/foo/bar/x.h");
            (vendorFile, "./vendor/example.com/foo/barbecue/x.h")].
Proof.
  exists Scenario.fooMod, (Scenario.fooDir +:+ "/barbecue/x.h").
  repeat split; vm_compute; reflexivity.
Qed.

End Filter.

(** ** The manifest parser *)

Section Parser.

Variable env : Env.
Variable copyPat : list string.

Lemma parseLine_module (st : parser) (line : string) :
  Strings.HasPrefix line "#" = true →
  parseLine env copyPat st line = moduleLine env copyPat st line.
Proof.
  destruct line as [|c line]; [discriminate |]. cbn [Strings.HasPrefix parseLine].
  rewrite (Ascii.eqb_sym "#" c). now destruct (Ascii.eqb c "#").
Qed.

Lemma parseLine_package (st : parser) (line : string) :
  isPackageLine line → parseLine env copyPat st line = packageLine st line.
Proof.
  intros [Hne H]. destruct line as [|c line]; [congruence |].
  cbn [Strings.HasPrefix parseLine] in *.
  rewrite (Ascii.eqb_sym "#" c) in H. now destruct (Ascii.eqb c "#").
Qed.

Lemma parseLines_app (st : parser) (lines lines' : list string) :
  parseLines env copyPat st (lines ++ lines') =
    (st' <- parseLines env copyPat st lines ;; parseLines env copyPat st' lines').
Proof.
  revert st. induction lines as [|line lines IH]; intros st; simpl; [reflexivity |].
  destruct (parseLine env copyPat st line); simpl; [apply IH | reflexivity ..].
Qed.

(** The pointers of [modules] stay within the heap. *)
Lemma parseLine_valid (st st' : parser) (line : string) :
  pointers_valid st → parseLine env copyPat st line = Ok st' → pointers_valid st'.
Proof.
  unfold pointers_valid. intros Hv.
  assert (Hgrow : ∀ m, Forall (fun p => (p < length (heap st ++ [m]))%nat) (modules st)).
  { intros m. eapply Forall_impl; [exact Hv |]. intros p Hp.
    simpl in Hp. rewrite length_app. simpl. lia. }
  destruct line as [|c line]; [discriminate |]. cbn [parseLine].
  destruct (Ascii.eqb c "#").
  - unfold moduleLine.
    destruct (at_index _ 1) as [s1 | |]; simpl; [| discriminate ..].
    destruct (at_index _ 2) as [s2 | |]; simpl; [| discriminate ..].
    destruct (String.eqb s2 "=>").
    { intros [= <-]. simpl. apply Hgrow. }
    match goal with
    | |- bind ?x _ = _ → _ => destruct x as [m | |]; simpl; [| discriminate ..]
    end.
    unfold emitMod. destruct (IsNotExist env (Dir m)); [discriminate |].
    destruct (buildModVendorList env copyPat m) as [vl | |]; simpl;
      [| discriminate ..].
    intros [= <-]. simpl. apply Forall_app. split; [apply Hgrow |].
    constructor; [| constructor]. rewrite length_app. simpl. lia.
  - unfold packageLine. destruct (modPtr st) as [p|]; [| discriminate].
    intros [= <-]. simpl. eapply Forall_impl; [exact Hv |]. intros q Hq.
    simpl in Hq. now rewrite length_alter.
Qed.

Lemma parseLines_valid (st st' : parser) (lines : list string) :
  pointers_valid st → parseLines env copyPat st lines = Ok st' → pointers_valid st'.
Proof.
  revert st. induction lines as [|line lines IH]; intros st Hv; simpl.
  - now intros [= <-].
  - destruct (parseLine env copyPat st line) as [st1 | |] eqn:E; simpl;
      [| discriminate ..].
    apply IH. eapply parseLine_valid; eassumption.
Qed.

Lemma parser0_valid : pointers_valid parser0.
Proof. constructor. Qed.

(** A record allocated after the ones [modules] points to does not show
    among the records. *)
Lemma records_detached (st : parser) (m : Mod) (ptr : option nat) :
  pointers_valid st →
  records (mkParser (heap st ++ [m]) ptr (modules st)) = records st.
Proof.
  unfold pointers_valid, records. simpl.
  induction (modules st) as [|p ps IH]; intros Hv; csimpl; [reflexivity |].
  inversion Hv; subst. rewrite lookup_app_l by assumption.
  destruct (heap st !! p); csimpl; now rewrite IH.
Qed.

(** Package lines that follow a record kept out of [modules] all go to
    that record. *)
Lemma packageLines_detached (h : list Mod) (ms : list nat) (m : Mod)
  (pkgs : list string) :
  Forall isPackageLine pkgs →
  parseLines env copyPat (mkParser (h ++ [m]) (Some (length h)) ms) pkgs
  = Ok (mkParser (h ++ [set_Pkgs (Pkgs m ++ pkgs) m]) (Some (length h)) ms).
Proof.
  revert m. induction pkgs as [|line pkgs IH]; intros m H; simpl.
  - rewrite app_nil_r. now destruct m.
  - inversion H as [|? ? Hline Hrest]; subst.
    rewrite (parseLine_package _ _ Hline). unfold packageLine. simpl.
    replace (length h) with (length h + 0)%nat at 1 by lia.
    rewrite alter_app_r. simpl. rewrite (IH _ Hrest). simpl.
    now rewrite <- app_assoc.
Qed.

(** C4.  A module line whose third token is [=>] (alone, or followed by
    more tokens) adds nothing to [modules]: after it and the package lines
    that follow it, [modules] and the records it points to are what they
    were before the line.  The package lines went to a record of the heap
    that no pointer of [modules] refers to. *)
Theorem redirection_line_skipped (pre pkgs : list string) (st : parser)
  (line t0 importPath : string) (rest : list string) :
  parseLines env copyPat parser0 pre = Ok st →
  Strings.HasPrefix line "#" = true →
  Strings.Split line " " = t0 :: importPath :: "=>" :: rest →
  Forall isPackageLine pkgs →
  ∃ st', parseLines env copyPat parser0 (pre ++ line :: pkgs) = Ok st' ∧
         modules st' = modules st ∧
         records st' = records st ∧
         heap st' = heap st ++ [mkMod importPath "" "=>" "" "" pkgs ∅] ∧
         Forall (fun p => (p < length (heap st))%nat) (modules st').
Proof.
  intros Hpre Hline Hs Hpkgs.
  pose proof (parseLines_valid _ _ _ parser0_valid Hpre) as Hv.
  rewrite parseLines_app, Hpre. cbn [bind parseLines].
  rewrite (parseLine_module _ _ Hline). unfold moduleLine. rewrite Hs.
  cbn [at_index lookup list_lookup bind String.eqb Ascii.eqb Bool.eqb].
  rewrite (packageLines_detached _ _ _ _ Hpkgs).
  eexists. split; [reflexivity |]. cbn [modules heap Pkgs set_Pkgs app].
  split; [reflexivity |]. split; [| split; [reflexivity | exact Hv]].
  apply (records_detached st _ _ Hv).
Qed.

Lemma hasReplace_cons (t0 importPath version : string) (rest : list string) :
  hasReplace (t0 :: importPath :: version :: rest)
  = match rest with
    | s3 :: _ => String.eqb s3 "=>"
    | [] => false
    end.
Proof. destruct rest; reflexivity. Qed.

(** C5.  A module line whose third token is not [=>]: with [=>] as fourth
    token, followed by two more, the record gets its cache directory from
    [pkgModPath] of the fifth and sixth token; with no [=>] as fourth token
    it gets it from [pkgModPath] of the second and third.  That directory
    is the one checked for existence, searched for candidates and stored
    in the record appended to [modules]. *)
Theorem moduleLine_resolves_Dir (st : parser) (line t0 importPath version : string)
  (rest : list string) :
  Strings.HasPrefix line "#" = true →
  Strings.Split line " " = t0 :: importPath :: version :: rest →
  version ≠ "=>" →
  (∀ sourcePath sourceVersion rest',
     rest = "=>" :: sourcePath :: sourceVersion :: rest' →
     let m := mkMod importPath sourcePath version sourceVersion
                    (pkgModPath env sourcePath sourceVersion) [] ∅ in
     parseLine env copyPat st line = emitMod env copyPat st m ∧
     ∀ st', parseLine env copyPat st line = Ok st' →
       modules st' = modules st ++ [length (heap st)] ∧
       Dir <$> heap st' !! length (heap st)
         = Some (pkgModPath env sourcePath sourceVersion)) ∧
  (head rest ≠ Some "=>" →
     let m := mkMod importPath "" version "" (pkgModPath env importPath version)
                    [] ∅ in
     parseLine env copyPat st line = emitMod env copyPat st m ∧
     ∀ st', parseLine env copyPat st line = Ok st' →
       modules st' = modules st ++ [length (heap st)] ∧
       Dir <$> heap st' !! length (heap st)
         = Some (pkgModPath env importPath version)).
Proof.
  intros Hline Hs Hv.
  assert (Hemit : ∀ m st', emitMod env copyPat st m = Ok st' →
            modules st' = modules st ++ [length (heap st)] ∧
            Dir <$> heap st' !! length (heap st) = Some (Dir m)).
  { intros m st'. unfold emitMod. destruct (IsNotExist env (Dir m)); [discriminate |].
    destruct (buildModVendorList env copyPat m) as [vl | |]; simpl;
      [| discriminate ..].
    intros [= <-]. simpl. split; [reflexivity |].
    now rewrite list_lookup_middle. }
  assert (Hstep : parseLine env copyPat st line =
            (m <- (if hasReplace (t0 :: importPath :: version :: rest) then
                     s4 <- at_index (t0 :: importPath :: version :: rest) 4 ;;
                     s5 <- at_index (t0 :: importPath :: version :: rest) 5 ;;
                     Ok (set_Dir (pkgModPath env s4 s5)
                           (set_Source s4 s5 (mkMod importPath "" version "" "" [] ∅)))
                   else
                     Ok (set_Dir (pkgModPath env importPath version)
                           (mkMod importPath "" version "" "" [] ∅))) ;;
             emitMod env copyPat st m)).
  { rewrite (parseLine_module _ _ Hline). unfold moduleLine. rewrite Hs.
    cbn [at_index lookup list_lookup bind].
    destruct (String.eqb_spec version "=>"); [congruence | reflexivity]. }
  rewrite Hstep, hasReplace_cons. split.
  - intros sourcePath sourceVersion rest' ->. simpl. split; [reflexivity |].
    intros st' H. apply (Hemit _ _ H).
  - intros Hhead.
    assert (match rest with s3 :: _ => String.eqb s3 "=>" | [] => false end = false)
      as ->.
    { destruct rest as [|s3 rest']; [reflexivity |].
      destruct (String.eqb_spec s3 "=>"); [subst; now contradict Hhead | reflexivity]. }
    simpl. split; [reflexivity |]. intros st' H. apply (Hemit _ _ H).
Qed.

(** C8.  A manifest whose first line does not begin with [#] ends the run
    in a panic at that line: [mod] is still [nil] when [mod.Pkgs] is read
    (and for an empty line, [line[0]] is out of range before that). *)
Theorem package_line_before_module (line : string) (rest : list string) :
  Strings.HasPrefix line "#" = false →
  (∃ p, parseLines env copyPat parser0 (line :: rest) = Panic p) ∧
  (line ≠ "" →
   parseLines env copyPat parser0 (line :: rest) = Panic NilDereference).
Proof.
  intros H. destruct (String.eqb_spec line "") as [-> | Hne].
  - split; [now exists IndexOutOfRange | congruence].
  - assert (parseLines env copyPat parser0 (line :: rest) = Panic NilDereference)
      as Hp.
    { cbn [parseLines]. now rewrite (parseLine_package _ _ (conj Hne H)). }
    split; [now exists NilDereference | intros _; exact Hp].
Qed.

Lemma parseLines_empty_line (st : parser) (manifest : list string) :
  "" ∈ manifest → is_Ok (parseLines env copyPat st manifest) = false.
Proof.
  revert st. induction manifest as [|line lines IH]; intros st Hin.
  - now apply elem_of_nil in Hin.
  - apply elem_of_cons in Hin as [<- | Hin]; [reflexivity |]. cbn [parseLines].
    destruct (parseLine env copyPat st line); simpl; [now apply IH | reflexivity ..].
Qed.

(** C9.  [line[0]] is read with no test that the line has a byte: on an
    empty line the turn of the loop panics with an index out of range,
    whatever the state; a manifest parsed without failure up to an empty
    line ends there with that panic; no manifest with an empty line is
    parsed to the end, so that every line of a manifest that is parsed to
    the end is non-empty. *)
Theorem empty_line_panics :
  (∀ st, parseLine env copyPat st "" = Panic IndexOutOfRange) ∧
  (∀ st0 pre post st,
     parseLines env copyPat st0 pre = Ok st →
     parseLines env copyPat st0 (pre ++ "" :: post) = Panic IndexOutOfRange) ∧
  (∀ st0 manifest,
     "" ∈ manifest → is_Ok (parseLines env copyPat st0 manifest) = false) ∧
  (∀ st0 manifest st,
     parseLines env copyPat st0 manifest = Ok st →
     Forall (fun line => line ≠ "") manifest).
Proof.
  split; [reflexivity |]. split; [| split].
  - intros st0 pre post st Hpre. now rewrite parseLines_app, Hpre.
  - intros st0 manifest. apply parseLines_empty_line.
  - intros st0 manifest st H. apply Forall_forall. intros line Hin ->.
    apply (parseLines_empty_line st0) in Hin. now rewrite H in Hin.
Qed.

End Parser.

(** ** From the parser to the filter *)

Section Pipeline.

Variable env : Env.
Variable copyPat : list string.

Lemma parser0_inv : parser_inv env parser0.
Proof. repeat split; constructor. Qed.

Lemma inv_grow (st : parser) (m : Mod) :
  parser_inv env st →
  Forall (fun p => ∃ m', (heap st ++ [m]) !! p = Some m' ∧ resolved env m')
         (modules st).
Proof.
  intros (_ & _ & Hres). eapply Forall_impl; [exact Hres |].
  intros p (m' & Hp & Hr). exists m'. split; [| exact Hr].
  now apply lookup_app_l_Some.
Qed.

Lemma emitMod_Ok (st st' : parser) (m : Mod) :
  emitMod env copyPat st m = Ok st' →
  ∃ vendorList,
    buildModVendorList env copyPat m = Ok vendorList ∧
    st' = mkParser (heap st ++ [set_VendorList vendorList m])
                   (Some (length (heap st))) (modules st ++ [length (heap st)]).
Proof.
  unfold emitMod. destruct (IsNotExist env (Dir m)); [discriminate |].
  destruct (buildModVendorList env copyPat m) as [vl | |]; simpl;
    [| discriminate ..].
  intros [= <-]. now exists vl.
Qed.

Lemma emitMod_inv (st st' : parser) (m : Mod) :
  parser_inv env st → resolved env m → emitMod env copyPat st m = Ok st' →
  parser_inv env st'.
Proof.
  intros Hinv Hr H. pose proof Hinv as (Hv & Hcol & Hres).
  apply emitMod_Ok in H as (vl & Hvl & ->). split; [| split]; simpl.
  - unfold pointers_valid in *. simpl. apply Forall_app. split.
    + eapply Forall_impl; [exact Hv |]. intros p Hp. simpl in Hp.
      rewrite length_app. simpl. lia.
    + constructor; [| constructor]. rewrite length_app. simpl. lia.
  - apply Forall_app. split; [exact Hcol |]. constructor; [| constructor].
    unfold collected. simpl. eapply buildModVendorList_false, Hvl.
  - apply Forall_app. split; [now apply inv_grow |].
    constructor; [| constructor]. eexists. split.
    + now apply list_lookup_middle.
    + exact Hr.
Qed.

Lemma moduleLine_inv (st st' : parser) (line : string) :
  parser_inv env st → moduleLine env copyPat st line = Ok st' →
  parser_inv env st'.
Proof.
  intros Hinv. pose proof Hinv as (Hv & Hcol & Hres). unfold moduleLine.
  destruct (at_index _ 1) as [s1 | |]; simpl; [| discriminate ..].
  destruct (at_index _ 2) as [s2 | |]; simpl; [| discriminate ..].
  destruct (String.eqb s2 "=>").
  - intros [= <-]. split; [| split]; simpl.
    + unfold pointers_valid in *. simpl.
      eapply Forall_impl; [exact Hv |]. intros p Hp. simpl in Hp.
      rewrite length_app. simpl. lia.
    + apply Forall_app. split; [exact Hcol |]. constructor; [| constructor].
      apply map_Forall_empty.
    + now apply inv_grow.
  - destruct (hasReplace _).
    + destruct (at_index _ 4) as [s4 | |]; simpl; [| discriminate ..].
      destruct (at_index _ 5) as [s5 | |]; simpl; [| discriminate ..].
      apply emitMod_inv; [exact Hinv |]. now exists s4, s5.
    + simpl. apply emitMod_inv; [exact Hinv |]. now exists s1, s2.
Qed.

Lemma packageLine_inv (st st' : parser) (line : string) :
  parser_inv env st → packageLine st line = Ok st' → parser_inv env st'.
Proof.
  intros (Hv & Hcol & Hres). unfold packageLine.
  destruct (modPtr st) as [p|]; [| discriminate].
  intros [= <-]. split; [| split]; simpl.
  - unfold pointers_valid in *. simpl.
    eapply Forall_impl; [exact Hv |]. intros q Hq. simpl in Hq.
    now rewrite length_alter.
  - apply Forall_alter; [exact Hcol |]. now intros m _ Hm.
  - eapply Forall_impl; [exact Hres |]. intros q (m & Hq & Hr).
    rewrite list_lookup_alter. case_decide as Hpq.
    + subst q. rewrite Hq. simpl. eexists. split; [reflexivity | exact Hr].
    + now exists m.
Qed.

Lemma parseLine_inv (st st' : parser) (line : string) :
  parser_inv env st → parseLine env copyPat st line = Ok st' →
  parser_inv env st'.
Proof.
  intros Hinv. destruct line as [|c line]; [discriminate |]. cbn [parseLine].
  destruct (Ascii.eqb c "#");
    [now apply moduleLine_inv | now apply packageLine_inv].
Qed.

Lemma parseLines_inv (st st' : parser) (lines : list string) :
  parser_inv env st → parseLines env copyPat st lines = Ok st' →
  parser_inv env st'.
Proof.
  revert st. induction lines as [|line lines IH]; intros st Hinv; simpl.
  - now intros [= <-].
  - destruct (parseLine env copyPat st line) as [st1 | |] eqn:E; simpl;
      [| discriminate ..].
    apply IH. eapply parseLine_inv; eassumption.
Qed.

(** Every record the parser hands to the filter has its cache directory
    from [pkgModPath] and its candidates with the flag unset. *)
Lemma records_parsed (manifest : list string) (st : parser) (m : Mod) :
  parseLines env copyPat parser0 manifest = Ok st → m ∈ records st →
  collected m ∧ resolved env m.
Proof.
  intros H Hin. apply (parseLines_inv _ _ _ parser0_inv) in H as (_ & Hcol & Hres).
  apply list_elem_of_omap in Hin as (p & Hp & Hm).
  split.
  - eapply Forall_forall in Hcol; [exact Hcol |].
    eapply list_elem_of_lookup_2, Hm.
  - eapply Forall_forall in Hres; [| exact Hp].
    destruct Hres as (m' & Hm' & Hr). congruence.
Qed.


End Pipeline.

(** ** The statements at concrete inputs *)

Section Witnesses.

Lemma parse_foo :
  parseLines Scenario.envFoo Scenario.copyPat parser0
    ["# example.com/foo v1.0.0"; "example.com/foo/bar"]
  = Ok (mkParser [Scenario.fooMod] (Some O) [O]).
Proof. vm_compute. reflexivity. Qed.

(** A replacement by a directory has no version: the line has five tokens,
    and reading the sixth panics. *)
Lemma replace_by_directory_panics :
  parseLine Scenario.envFoo Scenario.copyPat parser0 "# example.com/foo v1.0.0 => ../foo"
  = Panic IndexOutOfRange.
Proof. vm_compute. reflexivity. Qed.



Lemma redirection_line_skipped_witness :
  ∃ st', parseLines Scenario.envFoo Scenario.copyPat parser0
           (["# example.com/foo v1.0.0"; "example.com/foo/bar"]
            ++ "# example.com/old =>" :: ["example.com/old/pkg"]) = Ok st' ∧
         records st' = [Scenario.fooMod].
Proof.
  destruct (redirection_line_skipped Scenario.envFoo Scenario.copyPat
              ["# example.com/foo v1.0.0"; "example.com/foo/bar"]
              ["example.com/old/pkg"] (mkParser [Scenario.fooMod] (Some O) [O])
              "# example.com/old =>" "#" "example.com/old" [])
    as (st' & Hrun & _ & Hrec & _).
  - exact parse_foo.
  - reflexivity.
  - reflexivity.
  - constructor; [split; [discriminate | reflexivity] | constructor].
  - exists st'. split; [exact Hrun | exact Hrec].
Defined.

Lemma moduleLine_resolves_Dir_witness :
  ∃ st', parseLine Scenario.envFoo Scenario.copyPat parser0
           "# example.com/zzz v0.9.0 => example.com/foo v1.0.0" = Ok st' ∧
         Dir <$> heap st' !! O = Some Scenario.fooDir.
Proof.
  destruct (moduleLine_resolves_Dir Scenario.envFoo Scenario.copyPat parser0
              "# example.com/zzz v0.9.0 => example.com/foo v1.0.0"
              "#" "example.com/zzz" "v0.9.0"
              ["=>"; "example.com/foo"; "v1.0.0"])
    as [Hreplace _].
  - reflexivity.
  - reflexivity.
  - discriminate.
  - destruct (Hreplace "example.com/foo" "v1.0.0" [] eq_refl) as [_ Hok].
    destruct (parseLine Scenario.envFoo Scenario.copyPat parser0
                "# example.com/zzz v0.9.0 => example.com/foo v1.0.0")
      as [st' | msg | p] eqn:E.
    + exists st'. split; [reflexivity |]. exact (proj2 (Hok st' eq_refl)).
    + vm_compute in E. discriminate E.
    + vm_compute in E. discriminate E.
Defined.


Lemma package_line_before_module_witness :
  parseLines Scenario.envFoo Scenario.copyPat parser0
    ["example.com/foo/bar"; "# example.com/foo v1.0.0"] = Panic NilDereference.
Proof.
  apply (package_line_before_module Scenario.envFoo Scenario.copyPat "example.com/foo/bar"
           ["# example.com/foo v1.0.0"]).
  - reflexivity.
  - discriminate.
Defined.

Lemma empty_line_panics_witness :
  parseLines Scenario.envFoo Scenario.copyPat parser0
    (["# example.com/foo v1.0.0"; "example.com/foo/bar"]
     ++ "" :: ["example.com/foo/baz"]) = Panic IndexOutOfRange.
Proof.
  apply (proj1 (proj2 (empty_line_panics Scenario.envFoo Scenario.copyPat))
           parser0 _ _ (mkParser [Scenario.fooMod] (Some O) [O])).
  exact parse_foo.
Defined.

End Witnesses.

(** * Further properties *)

(** ** More on the scope filter *)

Section MoreFilter.

(** A module without candidates is left as it is. *)
Lemma filterMod_empty (includedPackages : list string) (m : Mod) :
  VendorList m = ∅ → filterMod includedPackages m = m.
Proof. intros H. unfold filterMod. now rewrite H, map_size_empty. Qed.

(** X1.  [importPathIntersect] returns what follows [basePath] in a
    [pkgPath] that begins with it, so that [basePath] and the result make
    up [pkgPath] and the slice is within the string; it returns the empty
    string for any other [pkgPath]. *)
Theorem importPathIntersect_suffix (basePath pkgPath : string) :
  if Strings.HasPrefix pkgPath basePath
  then basePath +:+ importPathIntersect basePath pkgPath = pkgPath ∧
       (Strings.len basePath ≤ Strings.len pkgPath)%nat
  else importPathIntersect basePath pkgPath = "".
Proof.
  unfold importPathIntersect. rewrite Index_eqb_zero.
  destruct (Strings.HasPrefix pkgPath basePath) eqn:E; [| reflexivity].
  simpl. split; [symmetry; now apply HasPrefix_slice | now apply HasPrefix_len].
Qed.

Lemma filterMod_kept (includedPackages : list string) (m : Mod)
  (vendorFile : string) (toggle : bool) :
  VendorList (filterMod includedPackages m) !! vendorFile = Some toggle →
  toggle = true ∧ is_Some (VendorList m !! vendorFile).
Proof.
  destruct (decide (VendorList m = ∅)) as [He | Hne].
  { rewrite (filterMod_empty _ _ He), He, lookup_empty. discriminate. }
  rewrite (filterMod_lookup _ _ _ Hne).
  destruct (VendorList m !! vendorFile) as [t|]; [| discriminate].
  destruct (markLoop _ _ _ _); [| discriminate].
  intros [= <-]. split; [reflexivity | now eexists].
Qed.

(** X2.  The filter adds no file and leaves no flag unset: every entry of
    [VendorList] after it was a candidate before, and its flag is set. *)
Theorem filterMod_keeps_candidates (includedPackages : list string) (m : Mod)
  (vendorFile : string) (toggle : bool) :
  VendorList (filterMod includedPackages m) !! vendorFile = Some toggle →
  toggle = true ∧ is_Some (VendorList m !! vendorFile).
Proof. apply filterMod_kept. Qed.

Lemma filter_none (importPath : string) (includedPackages : list string) :
  Forall (fun pkg => Strings.HasPrefix pkg importPath = false) includedPackages →
  List.filter (fun pkg => Strings.HasPrefix pkg importPath) includedPackages = [].
Proof.
  induction 1 as [|pkg rest H _ IH]; simpl; [reflexivity |]. now rewrite H.
Qed.

(** X3.  A module without package lines, and without an [-include] entry
    that begins with its import path, keeps none of its candidates,
    whatever the patterns matched. *)
Theorem filterMod_no_packages (includedPackages : list string) (m : Mod) :
  collected m →
  Pkgs m = [] →
  Forall (fun pkg => Strings.HasPrefix pkg (ImportPath m) = false)
         includedPackages →
  VendorList (filterMod includedPackages m) = ∅.
Proof.
  intros Hcol Hpkgs Hinc.
  destruct (decide (VendorList m = ∅)) as [He | Hne].
  { now rewrite (filterMod_empty _ _ He). }
  apply map_eq. intros f. rewrite lookup_empty, (filterMod_lookup _ _ _ Hne).
  destruct (VendorList m !! f) as [t|] eqn:Hl; [| reflexivity].
  rewrite appendIncluded_filter, Hpkgs, (filter_none _ _ Hinc). simpl.
  now rewrite (Hcol _ _ Hl).
Qed.

(** X5.  Entries of [-include] that do not begin with the import path of
    a module change nothing for it; so an empty [-include], which
    [strings.Split] turns into one empty entry, changes nothing for a
    module with a non-empty import path. *)
Theorem filterMod_empty_include (includePackagesFlag : string) (m : Mod) :
  Strings.TrimSpace includePackagesFlag = "" →
  ImportPath m ≠ "" →
  filterMod (Strings.Split (Strings.TrimSpace includePackagesFlag) " ") m
  = filterMod [] m.
Proof.
  intros -> Hip. change (Strings.Split "" " ") with [""].
  unfold filterMod. destruct (size (VendorList m) =? 0)%nat; [reflexivity |].
  cbn [appendIncluded].
  destruct (ImportPath m) as [|c ip]; [congruence | reflexivity].
Qed.

(** X6.  More [-include] entries never remove a file: what the filter
    keeps with one list of entries it keeps with any list that holds them
    all. *)
Theorem filterMod_include_mono (includedPackages includedPackages' : list string)
  (m : Mod) (vendorFile : string) :
  (∀ pkg, pkg ∈ includedPackages → pkg ∈ includedPackages') →
  is_Some (VendorList (filterMod includedPackages m) !! vendorFile) →
  is_Some (VendorList (filterMod includedPackages' m) !! vendorFile).
Proof.
  intros Hsub.
  destruct (decide (VendorList m = ∅)) as [He | Hne].
  { now rewrite !(filterMod_empty _ _ He). }
  rewrite !(filterMod_lookup _ _ _ Hne).
  destruct (VendorList m !! vendorFile) as [t|]; [| intros [? ?]; discriminate].
  destruct (markLoop m vendorFile (appendIncluded _ _ includedPackages) t) eqn:E;
    [| intros [? ?]; discriminate].
  intros _. apply markLoop_true in E.
  assert (markLoop m vendorFile
            (appendIncluded (ImportPath m) (Pkgs m) includedPackages') t = true)
    as ->; [| now eexists].
  apply markLoop_true. destruct E as [E | (subpkg & Hin & Hp)]; [now left |].
  right. exists subpkg. split; [| exact Hp].
  rewrite appendIncluded_filter in *.
  apply elem_of_app in Hin as [Hin | Hin]; apply elem_of_app; [now left | right].
  apply list_elem_of_In, filter_In in Hin as [Hin Hpre].
  apply list_elem_of_In, filter_In. split; [| exact Hpre].
  apply list_elem_of_In, Hsub, list_elem_of_In, Hin.
Qed.

End MoreFilter.

Section MorePipeline.

Variable env : Env.
Variable copyPat : list string.

(** X4.  When the import path of a module is itself in its package set
    (the root package of the module is imported, or named by [-include]),
    the scoping directory is the cache directory, and every candidate under
    the cache directory is kept, also in directories of packages that are
    not imported. *)
Theorem filterMod_root_package (manifest includedPackages : list string)
  (st : parser) (m : Mod) (vendorFile : string) :
  parseLines env copyPat parser0 manifest = Ok st →
  m ∈ records st →
  ImportPath m ∈ Pkgs m ++ List.filter
                   (fun pkg => Strings.HasPrefix pkg (ImportPath m)) includedPackages →
  is_Some (VendorList m !! vendorFile) →
  Strings.HasPrefix vendorFile (Dir m) = true →
  scopePath m (ImportPath m) = Dir m ∧
  VendorList (filterMod includedPackages m) !! vendorFile = Some true.
Proof.
  intros Hparse Hin Hroot Hcand Hpre.
  destruct (records_parsed _ _ _ _ _ Hparse Hin) as [Hcol (ip & v & HDir)].
  assert (VendorList m ≠ ∅) as Hne.
  { intros He. rewrite He, lookup_empty in Hcand. now destruct Hcand. }
  assert (scopePath m (ImportPath m) = Dir m) as Hscope.
  { unfold scopePath.
    rewrite <- (append_nil_r (ImportPath m)) at 2.
    rewrite importPathIntersect_prefix, HDir. apply Join_pkgModPath_empty. }
  split; [exact Hscope |].
  assert (is_Some (VendorList (filterMod includedPackages m) !! vendorFile))
    as [toggle Ht].
  { apply (filterMod_selected_iff _ _ _ Hne Hcol Hcand).
    exists (ImportPath m). split; [exact Hroot | now rewrite Hscope]. }
  rewrite Ht. f_equal. eapply filterMod_kept, Ht.
Qed.

End MorePipeline.

(** ** The candidate collector *)

Section Collector.

Variable env : Env.

Lemma addMatches_dom (vendorList : gmap string bool) (matches : list string)
  (f : string) :
  is_Some (addMatches vendorList matches !! f) ↔
  is_Some (vendorList !! f) ∨ f ∈ matches.
Proof.
  revert vendorList. induction matches as [|m rest IH]; intros vendorList; simpl.
  - split; [now left | intros [H | H]; [exact H | now apply elem_of_nil in H]].
  - rewrite IH, lookup_insert_is_Some, elem_of_cons. split.
    + intros [[-> | [_ H]] | H]; [right; now left | now left | right; now right].
    + intros [H | [-> | H]]; [| left; now left | now right].
      destruct (decide (m = f)) as [-> | Hne]; left; [now left | now right].
Qed.

(** The loop over the patterns: it ends without failure when every
    pattern is searched without error, with the candidates it had and the
    matches of every pattern; it fails at the first pattern whose search
    fails. *)
Lemma globLoop_spec (copyPat : list string) (dir : string)
  (vendorList : gmap string bool) :
  match globLoop env copyPat dir vendorList with
  | Ok vendorList' =>
      Forall (fun pat => ∃ ms, Glob env (Filepath.Join [dir; pat]) = inl ms)
             copyPat ∧
      ∀ f, is_Some (vendorList' !! f) ↔
           is_Some (vendorList !! f) ∨
           ∃ pat ms, pat ∈ copyPat ∧
                     Glob env (Filepath.Join [dir; pat]) = inl ms ∧ f ∈ ms
  | Fatal msg =>
      ∃ pre pat post err,
        copyPat = pre ++ pat :: post ∧
        Forall (fun pat => ∃ ms, Glob env (Filepath.Join [dir; pat]) = inl ms)
               pre ∧
        Glob env (Filepath.Join [dir; pat]) = inr err ∧
        msg = "glob match failure: " +:+ err
  | Panic _ => False
  end.
Proof.
  revert vendorList. induction copyPat as [|pat rest IH]; intros vendorList; simpl.
  - split; [constructor |]. intros f. split; [now left |].
    intros [H | (pat & ms & Hin & _)]; [exact H | now apply elem_of_nil in Hin].
  - destruct (Glob env (Filepath.Join [dir; pat])) as [ms | err] eqn:Hg.
    + specialize (IH (addMatches vendorList ms)).
      destruct (globLoop env rest dir (addMatches vendorList ms))
        as [vl' | msg | p]; [| | exact IH].
      * destruct IH as [Hall Hdom]. split; [constructor; [now exists ms | exact Hall] |].
        intros f. rewrite Hdom, addMatches_dom. split.
        -- intros [[H | H] | (pat' & ms' & Hin & Hg' & Hf)].
           ++ now left.
           ++ right. exists pat, ms. split; [left | now split].
           ++ right. exists pat', ms'. split; [now right | now split].
        -- intros [H | (pat' & ms' & Hin & Hg' & Hf)]; [left; now left |].
           apply elem_of_cons in Hin as [-> | Hin].
           ++ left. right. congruence.
           ++ right. now exists pat', ms'.
      * destruct IH as (pre & pat' & post & err & -> & Hpre & Hg' & ->).
        exists (pat :: pre), pat', post, err. repeat split; try assumption.
        constructor; [now exists ms | exact Hpre].
    + exists [], pat, rest, err. repeat split; [constructor | assumption].
Qed.

(** X7.  [buildModVendorList] never panics.  It returns a list exactly
    when the search of every pattern, joined to the cache directory, ends
    without error; the list then holds the matches of all the patterns and
    nothing else, each with its flag unset.  Otherwise the run ends with
    the error of the first pattern whose search fails. *)
Theorem buildModVendorList_spec (copyPat : list string) (m : Mod) :
  match buildModVendorList env copyPat m with
  | Ok vendorList =>
      Forall (fun pat => ∃ ms, Glob env (Filepath.Join [Dir m; pat]) = inl ms)
             copyPat ∧
      ∀ f toggle,
        vendorList !! f = Some toggle ↔
        toggle = false ∧
        ∃ pat ms, pat ∈ copyPat ∧
                  Glob env (Filepath.Join [Dir m; pat]) = inl ms ∧ f ∈ ms
  | Fatal msg =>
      ∃ pre pat post err,
        copyPat = pre ++ pat :: post ∧
        Forall (fun pat => ∃ ms, Glob env (Filepath.Join [Dir m; pat]) = inl ms)
               pre ∧
        Glob env (Filepath.Join [Dir m; pat]) = inr err ∧
        msg = "glob match failure: " +:+ err
  | Panic _ => False
  end.
Proof.
  pose proof (globLoop_spec copyPat (Dir m) ∅) as H.
  pose proof (buildModVendorList_false env copyPat m) as Hfalse.
  unfold buildModVendorList in *.
  destruct (globLoop env copyPat (Dir m) ∅) as [vl | msg | p]; [| exact H ..].
  destruct H as [Hall Hdom]. split; [exact Hall |]. intros f toggle.
  specialize (Hfalse vl eq_refl). split.
  - intros Hl. split; [exact (Hfalse _ _ Hl) |].
    assert (is_Some (vl !! f)) as Hs by (exists toggle; exact Hl).
    apply Hdom in Hs as [[? H] | H]; [| exact H].
    now rewrite lookup_empty in H.
  - intros [-> Hex]. destruct (proj2 (Hdom f) (or_intror Hex)) as [b Hb].
    now rewrite Hb, (Hfalse _ _ Hb).
Qed.

End Collector.

(** ** More on the path encoder *)

Section MoreEncoder.

Lemma escapeAll_nil (importPath : string) :
  escapeAll importPath = "" → importPath = "".
Proof.
  destruct importPath as [|c rest]; [reflexivity |]. simpl. unfold escape.
  destruct (IsUpper c); discriminate.
Qed.

Lemma ToLower_injective (c d : ascii) :
  IsUpper c = true → IsUpper d = true → ToLower c = ToLower d → c = d.
Proof.
  intros Hc Hd H. apply (f_equal nat_of_ascii) in H.
  rewrite (proj1 (ToLower_upper _ Hc)), (proj1 (ToLower_upper _ Hd)) in H.
  rewrite <- (ascii_nat_embedding c), <- (ascii_nat_embedding d).
  f_equal. lia.
Qed.

Lemma escapeAll_injective (p q : string) :
  has_byte "!" p = false → has_byte "!" q = false →
  escapeAll p = escapeAll q → p = q.
Proof.
  revert q. induction p as [|c p IH]; intros q Hp Hq H.
  - symmetry. apply escapeAll_nil. now rewrite <- H.
  - destruct q as [|d q]; [now apply escapeAll_nil in H |].
    cbn [has_byte] in Hp, Hq.
    apply orb_false_iff in Hp as [Hc Hp]. apply orb_false_iff in Hq as [Hd Hq].
    cbn [escapeAll] in H. unfold escape in H.
    destruct (IsUpper c) eqn:Uc, (IsUpper d) eqn:Ud; simpl in H.
    + injection H as Hl Hrest. f_equal; [now apply ToLower_injective | now apply IH].
    + injection H as Hbang _. subst d. now rewrite Ascii.eqb_refl in Hd.
    + injection H as Hbang _. subst c. now rewrite Ascii.eqb_refl in Hc.
    + injection H as -> Hrest. f_equal. now apply IH.
Qed.

Lemma length_append (s t : string) :
  String.length (s +:+ t) = (String.length s + String.length t)%nat.
Proof. induction s as [|a s IH]; simpl; [reflexivity | now rewrite IH]. Qed.

Lemma append_cancel_r (s t u : string) : s +:+ u = t +:+ u → s = t.
Proof.
  revert t. induction s as [|a s IH]; intros t H.
  - apply (f_equal String.length) in H.
    destruct t as [|b t]; [reflexivity |].
    simpl in H. rewrite length_append in H. lia.
  - destruct t as [|b t].
    + apply (f_equal String.length) in H. simpl in H.
      rewrite length_append in H. lia.
    + simpl in H. injection H as -> H. f_equal. now apply IH.
Qed.

Lemma append_cancel_l (s t u : string) : s +:+ t = s +:+ u → t = u.
Proof.
  induction s as [|a s IH]; simpl; [trivial |]. intros [= H]. now apply IH.
Qed.

(** X8.  Without [!] in the import paths the encoding keeps ASCII import
    paths apart: two of them with the same [normPath] are the same, and
    when the elements of [normPath@version] are plain, two that give the
    same cache directory for a version are the same.  (With [!] allowed
    this fails: [A] and [!a] have the same [normPath].) *)
Theorem normPath_injective (env : Env) (p q version : string) :
  isASCII p = true → isASCII q = true →
  has_byte "!" p = false → has_byte "!" q = false →
  (normLoop "" p = normLoop "" q → p = q) ∧
  (Forall plain (Strings.Split (escapeAll p +:+ "@" +:+ version) "/") →
   Forall plain (Strings.Split (escapeAll q +:+ "@" +:+ version) "/") →
   pkgModPath env p version = pkgModPath env q version → p = q) ∧
  normLoop "" "A" = normLoop "" "!a".
Proof.
  intros _ _ Hp Hq. split; [| split; [| reflexivity]].
  - rewrite !normLoop_escapeAll. simpl. now apply escapeAll_injective.
  - intros Pp Pq. rewrite (pkgModPath_plain _ _ _ Pp), (pkgModPath_plain _ _ _ Pq).
    intros H. apply append_cancel_l, append_cancel_l in H.
    apply append_cancel_r in H. now apply escapeAll_injective.
Qed.

Lemma Clean_nonempty (path : string) : Filepath.Clean path ≠ "".
Proof.
  destruct (Clean_is_render path) as (rooted & st & Hst & ->).
  apply (render_fixed rooted st Hst).
Qed.

Lemma pkgModPath_clean_facts (env : Env) (importPath version : string) :
  pkgModPath env importPath version ≠ "" ∧
  Filepath.Clean (pkgModPath env importPath version)
  = pkgModPath env importPath version.
Proof.
  destruct (pkgModPath_Clean env importPath version) as [path ->].
  split; [apply Clean_nonempty | apply Clean_idempotent].
Qed.

(** X9.  The directory [pkgModPath] returns is never empty and is in the
    form [filepath.Clean] gives: cleaning it again, or joining it with an
    empty element, leaves it as it is. *)
Theorem pkgModPath_clean (env : Env) (importPath version : string) :
  pkgModPath env importPath version ≠ "" ∧
  Filepath.Clean (pkgModPath env importPath version)
  = pkgModPath env importPath version ∧
  Filepath.Join [pkgModPath env importPath version; ""]
  = pkgModPath env importPath version.
Proof.
  destruct (pkgModPath_Clean env importPath version) as [path ->].
  split; [apply Clean_nonempty |].
  split; [apply Clean_idempotent | apply Join_Clean_empty].
Qed.

(** Cleaning the first part of a path before the rest is added changes
    nothing. *)
Lemma Clean_Clean_append (a b : string) :
  a ≠ "" →
  Filepath.Clean (Filepath.Clean a +:+ "/" +:+ b) = Filepath.Clean (a +:+ "/" +:+ b).
Proof.
  intros Ha.
  assert (clean_state (Strings.HasPrefix a "/")
            (fold_left (Filepath.clean_elem (Strings.HasPrefix a "/"))
                       (Strings.Split a "/") (O, []))) as Hst.
  { apply fold_clean_state; [apply Split_elems |].
    split; [reflexivity | constructor]. }
  destruct (render_fixed _ _ Hst) as (Hne & Hpre & Hfold).
  rewrite (Clean_unfold a Ha).
  set (r := Strings.HasPrefix a "/") in *.
  set (st := fold_left _ _ _) in *.
  assert (Filepath.render r st +:+ "/" +:+ b ≠ "") as Hne1
    by (destruct (Filepath.render r st); [congruence | discriminate]).
  assert (a +:+ "/" +:+ b ≠ "") as Hne2
    by (destruct a; [congruence | discriminate]).
  rewrite (Clean_unfold _ Hne1), (Clean_unfold _ Hne2).
  rewrite (HasPrefix_append _ _ "/" Hne), (HasPrefix_append _ _ "/" Ha), Hpre.
  fold r. change ("/" +:+ b) with (String "/" b).
  rewrite !Split_app_sep, !fold_left_app, Hfold. reflexivity.
Qed.

(** X10.  With [GOPATH] unset the cache directory is under [$HOME/go]:
    the result is [filepath.Join] of [HOME], [go], [pkg], [mod] and
    [normPath@version] (a relative path when [HOME] is empty too). *)
Theorem pkgModPath_default_GOPATH (env : Env) (importPath version : string) :
  GOPATH env = "" →
  pkgModPath env importPath version
  = Filepath.Join [HOME env; "go"; "pkg"; "mod";
                   escapeAll importPath +:+ "@" +:+ version].
Proof.
  intros Hg. unfold pkgModPath, goPath. rewrite Hg, normLoop_escapeAll.
  change ("" +:+ escapeAll importPath) with (escapeAll importPath).
  set (x := escapeAll importPath +:+ "@" +:+ version).
  change (String.eqb "" "") with true. cbn iota.
  unfold Filepath.Join at 2. cbn [Filepath.from_nonempty].
  destruct (String.eqb_spec (HOME env) "") as [-> | Hh].
  - reflexivity.
  - unfold Filepath.Join. cbn [Filepath.from_nonempty].
    destruct (String.eqb_spec (HOME env) ""); [congruence |].
    destruct (String.eqb_spec (Filepath.Clean (Strings.Join [HOME env; "go"] "/")) "")
      as [He | _]; [now apply Clean_nonempty in He |].
    cbn [Strings.Join].
    assert (HOME env +:+ "/" +:+ "go" ≠ "") as Ha
      by (destruct (HOME env); [congruence | discriminate]).
    rewrite (Clean_Clean_append _ _ Ha). now rewrite !append_assoc.
Qed.

End MoreEncoder.

(** ** More on the manifest parser *)

Section MoreParser.

Variable env : Env.
Variable copyPat : list string.

Lemma Join_sep_cons (e e' : string) (rest : list string) (sep : ascii) :
  Strings.Join (e :: e' :: rest) (String sep "")
  = e +:+ String sep (Strings.Join (e' :: rest) (String sep "")).
Proof. reflexivity. Qed.

(** Tokens without the separator, joined and split, are the tokens. *)
Lemma Split_Join_sep (sep : ascii) (l : list string) :
  l ≠ [] → Forall (fun e => has_byte sep e = false) l →
  Strings.Split (Strings.Join l (String sep "")) sep = l.
Proof.
  induction l as [|e l IH]; [congruence |].
  intros _ H. inversion H as [|? ? He Hl]; subst.
  destruct l as [|e' l].
  - simpl. now apply Split_no_sep.
  - rewrite Join_sep_cons, Split_app_sep, (Split_no_sep e _ He).
    rewrite IH; [reflexivity | congruence | assumption].
Qed.

Lemma records_emitted (st : parser) (m : Mod) :
  pointers_valid st →
  records (mkParser (heap st ++ [m]) (Some (length (heap st)))
                    (modules st ++ [length (heap st)]))
  = records st ++ [m].
Proof.
  intros Hv. unfold records. cbn [heap modules]. rewrite omap_app. f_equal.
  - apply (records_detached st m None Hv).
  - csimpl. now rewrite list_lookup_middle.
Qed.

Lemma blockHeader_module (b : block) :
  Strings.HasPrefix (Strings.Join (blockTokens b) " ") "#" = true.
Proof. reflexivity. Qed.

(** One block, from a state with valid pointers. *)
Lemma parse_block (st : parser) (b : block) (vendorList : gmap string bool) :
  pointers_valid st → blockOk b →
  IsNotExist env (blockDir env b) = false →
  globLoop env copyPat (blockDir env b) ∅ = Ok vendorList →
  ∃ st', parseLines env copyPat st (blockLines b) = Ok st' ∧
         records st' = records st ++ [blockMod env b vendorList] ∧
         pointers_valid st'.
Proof.
  intros Hv (Htok & Hver & Hpkgs) Hex Hglob.
  assert (Strings.Split (Strings.Join (blockTokens b) " ") " " = blockTokens b)
    as Hsplit by (apply Split_Join_sep; [discriminate | exact Htok]).
  unfold blockLines. cbn [parseLines].
  rewrite (parseLine_module _ _ _ _ (blockHeader_module b)).
  unfold moduleLine. rewrite Hsplit. unfold blockTokens at 1 2.
  cbn [at_index lookup list_lookup bind].
  destruct (String.eqb_spec (blockVersion b) "=>") as [? | _]; [congruence |].
  set (m := blockMod env b vendorList).
  assert (∀ m0, Dir m0 = blockDir env b →
            emitMod env copyPat st m0
            = Ok (mkParser (heap st ++ [set_VendorList vendorList m0])
                           (Some (length (heap st)))
                           (modules st ++ [length (heap st)]))) as Hemit.
  { intros m0 Hd. unfold emitMod, buildModVendorList. now rewrite Hd, Hex, Hglob. }
  assert ((m0 <- (if hasReplace (blockTokens b) then
                   s4 <- at_index (blockTokens b) 4 ;;
                   s5 <- at_index (blockTokens b) 5 ;;
                   Ok (set_Dir (pkgModPath env s4 s5)
                         (set_Source s4 s5
                            (mkMod (blockPath b) "" (blockVersion b) "" "" [] ∅)))
                 else
                   Ok (set_Dir (pkgModPath env (blockPath b) (blockVersion b))
                         (mkMod (blockPath b) "" (blockVersion b) "" "" [] ∅))) ;;
           emitMod env copyPat st m0)
          = Ok (mkParser (heap st ++ [set_Pkgs [] m]) (Some (length (heap st)))
                         (modules st ++ [length (heap st)]))) as ->.
  { unfold blockTokens, m, blockMod, blockDir in *.
    destruct (blockReplace b) as [[sp sv]|].
    - change (hasReplace _) with true. cbn [at_index lookup list_lookup bind].
      rewrite Hemit by reflexivity. reflexivity.
    - change (hasReplace _) with false. cbn [bind].
      rewrite Hemit by reflexivity. reflexivity. }
  cbn [bind]. rewrite packageLines_detached by exact Hpkgs.
  eexists. split; [reflexivity |]. cbn [Pkgs set_Pkgs app].
  replace (set_Pkgs (blockPkgs b) m) with m by reflexivity.
  split; [now apply records_emitted |].
  unfold pointers_valid in *. cbn [heap modules]. apply Forall_app. split.
  - eapply Forall_impl; [exact Hv |]. intros p Hp. simpl in Hp.
    rewrite length_app. simpl. lia.
  - constructor; [| constructor]. rewrite length_app. simpl. lia.
Qed.

Lemma parse_blocks_from (st : parser) (blocks : list block)
  (vendorLists : list (gmap string bool)) :
  pointers_valid st →
  Forall blockOk blocks →
  Forall2 (fun b vendorList =>
             IsNotExist env (blockDir env b) = false ∧
             globLoop env copyPat (blockDir env b) ∅ = Ok vendorList)
          blocks vendorLists →
  ∃ st', parseLines env copyPat st (concat (map blockLines blocks)) = Ok st' ∧
         records st' = records st ++ zip_with (blockMod env) blocks vendorLists.
Proof.
  intros Hv Hok H2. revert st Hv Hok.
  induction H2 as [|b vl blocks vls [Hex Hglob] _ IH]; intros st Hv Hok.
  - exists st. split; [reflexivity | now rewrite app_nil_r].
  - inversion Hok as [|? ? Hb Hrest]; subst.
    destruct (parse_block st b vl Hv Hb Hex Hglob) as (st1 & Hrun & Hrec & Hv1).
    destruct (IH st1 Hv1 Hrest) as (st' & Hrun' & Hrec').
    exists st'. split.
    + cbn [map concat]. now rewrite parseLines_app, Hrun.
    + rewrite Hrec', Hrec. cbn [zip_with]. now rewrite <- app_assoc.
Qed.

(** X11.  A manifest made of blocks in the format of [go mod vendor],
    whose cache directories exist and are searched without error, is
    parsed to the end: there is one record for each block, in the order of
    the manifest, with the import path, the version and the replacement of
    its module line, the cache directory of the replacement if there is
    one and of the module otherwise, the package lines that follow it up to
    the next module line, in order, and the candidates of that
    directory. *)
Theorem parse_blocks (blocks : list block)
  (vendorLists : list (gmap string bool)) :
  Forall blockOk blocks →
  Forall2 (fun b vendorList =>
             IsNotExist env (blockDir env b) = false ∧
             globLoop env copyPat (blockDir env b) ∅ = Ok vendorList)
          blocks vendorLists →
  ∃ st, parseLines env copyPat parser0 (concat (map blockLines blocks)) = Ok st ∧
        records st = zip_with (blockMod env) blocks vendorLists.
Proof.
  intros Hok H2.
  destruct (parse_blocks_from parser0 blocks vendorLists parser0_valid Hok H2)
    as (st & Hrun & Hrec).
  exists st. split; [exact Hrun | exact Hrec].
Qed.

(** X12.  A line that begins with [#] and has fewer than three tokens
    panics when its tokens are read; so does a line with [=>] as fourth
    token and fewer than six tokens (a replacement by a directory, which
    has no version), unless its third token is [=>] too. *)
Theorem moduleLine_short_panics (st : parser) (line : string) :
  Strings.HasPrefix line "#" = true →
  ((length (Strings.Split line " ") < 3)%nat →
   parseLine env copyPat st line = Panic IndexOutOfRange) ∧
  (Strings.Split line " " !! 2%nat ≠ Some "=>" →
   Strings.Split line " " !! 3%nat = Some "=>" →
   (length (Strings.Split line " ") < 6)%nat →
   parseLine env copyPat st line = Panic IndexOutOfRange).
Proof.
  intros Hline. rewrite (parseLine_module _ _ _ _ Hline). unfold moduleLine.
  destruct (Strings.Split line " ") as [|t0 [|t1 [|t2 rest]]]; simpl;
    (split; [intros Hlen; try reflexivity; lia |]); try discriminate.
  intros Hv H3 Hlen.
  destruct (String.eqb_spec t2 "=>") as [-> | _]; [congruence |].
  destruct rest as [|t3 rest]; [discriminate |]. simpl in H3.
  injection H3 as ->.
  unfold hasReplace.
  destruct rest as [|t4 [|t5 rest]]; [reflexivity | reflexivity | simpl in Hlen; lia].
Qed.

Lemma parseLine_NoDup (st st' : parser) (line : string) :
  pointers_valid st → NoDup (modules st) →
  parseLine env copyPat st line = Ok st' → NoDup (modules st').
Proof.
  intros Hv Hnd.
  assert (Hemit : ∀ m, emitMod env copyPat st m = Ok st' → NoDup (modules st')).
  { intros m H. apply emitMod_Ok in H as (vl & _ & ->). cbn [modules].
    apply NoDup_app. split; [exact Hnd |]. split; [| apply NoDup_singleton].
    intros p Hp Hin. apply list_elem_of_singleton in Hin. subst p.
    eapply Forall_forall in Hv; [| exact Hp]. simpl in Hv. lia. }
  destruct line as [|c line]; [discriminate |]. cbn [parseLine].
  destruct (Ascii.eqb c "#").
  - unfold moduleLine.
    destruct (at_index _ 1) as [s1 | |]; simpl; [| discriminate ..].
    destruct (at_index _ 2) as [s2 | |]; simpl; [| discriminate ..].
    destruct (String.eqb s2 "=>"); [now intros [= <-] |].
    match goal with
    | |- bind ?x _ = _ → _ => destruct x as [m | |]; simpl; [| discriminate ..]
    end.
    apply Hemit.
  - unfold packageLine. destruct (modPtr st) as [p|]; [| discriminate].
    now intros [= <-].
Qed.

Lemma parseLines_NoDup (st st' : parser) (lines : list string) :
  pointers_valid st → NoDup (modules st) →
  parseLines env copyPat st lines = Ok st' → NoDup (modules st').
Proof.
  revert st. induction lines as [|line lines IH]; intros st Hv Hnd; simpl.
  - now intros [= <-].
  - destruct (parseLine env copyPat st line) as [st1 | |] eqn:E; simpl;
      [| discriminate ..].
    apply IH.
    + eapply parseLine_valid; eassumption.
    + eapply parseLine_NoDup; eassumption.
Qed.

Lemma records_length (st : parser) :
  pointers_valid st → length (records st) = length (modules st).
Proof.
  unfold pointers_valid, records.
  induction (modules st) as [|p ps IH]; intros Hv; csimpl; [reflexivity |].
  inversion Hv as [|? ? Hp Hps]; subst.
  destruct (lookup_lt_is_Some_2 _ _ Hp) as [m ->]. csimpl. now rewrite IH.
Qed.

(** X13.  After a parse without failure [modules] holds no pointer twice,
    and every pointer in it refers to a record: the filter and the copy
    loop visit each record once, and the change the filter makes to one
    record is seen through no other pointer. *)
Theorem modules_distinct (manifest : list string) (st : parser) :
  parseLines env copyPat parser0 manifest = Ok st →
  NoDup (modules st) ∧
  Forall (fun p => is_Some (heap st !! p)) (modules st) ∧
  length (records st) = length (modules st).
Proof.
  intros H.
  pose proof (parseLines_valid _ _ _ _ _ parser0_valid H) as Hv.
  split; [| split].
  - eapply parseLines_NoDup; [apply parser0_valid | constructor | exact H].
  - eapply Forall_impl; [exact Hv |]. intros p Hp. now apply lookup_lt_is_Some_2.
  - now apply records_length.
Qed.

End MoreParser.

(** ** More on the vendor planner and the run *)

Section MorePlanner.

Lemma vendorDest_Ok (m : Mod) (vendorFile dst : string) :
  vendorDest m vendorFile = Ok dst ↔
  0 ≤ Strings.Index vendorFile (Dir m) ∧
  dst = "./vendor/" +:+ ImportPath m +:+
        Strings.slice_from vendorFile (Strings.len (Dir m)).
Proof.
  unfold vendorDest.
  destruct (Strings.Index vendorFile (Dir m) <? 0) eqn:E.
  - split; [discriminate | lia].
  - split; [intros [= <-]; split; [lia | reflexivity] | now intros [_ ->]].
Qed.

Lemma keys_elem (m : Mod) (f : string) :
  f ∈ map fst (map_to_list (VendorList m)) ↔ is_Some (VendorList m !! f).
Proof.
  rewrite list_elem_of_fmap. split.
  - intros ([f' b] & -> & H). apply elem_of_map_to_list in H. now exists b.
  - intros [b H]. exists (f, b). split; [reflexivity |].
    now apply elem_of_map_to_list.
Qed.

Lemma planFiles_spec (m : Mod) (vendorFiles : list string) :
  match planFiles m vendorFiles with
  | Ok copies =>
      Forall (fun f => 0 ≤ Strings.Index f (Dir m)) vendorFiles ∧
      copies = map (fun f => (f, "./vendor/" +:+ ImportPath m +:+
                                 Strings.slice_from f (Strings.len (Dir m))))
                   vendorFiles
  | Fatal msg =>
      msg = "Error! vendor file doesn't belong to mod, strange." ∧
      Exists (fun f => Strings.Index f (Dir m) < 0) vendorFiles
  | Panic _ => False
  end.
Proof.
  induction vendorFiles as [|f rest IH]; simpl; [now split |].
  unfold vendorDest at 1.
  destruct (Strings.Index f (Dir m) <? 0) eqn:E; simpl.
  - split; [reflexivity | left; lia].
  - destruct (planFiles m rest) as [copies | msg | p]; simpl; [| | exact IH].
    + destruct IH as [Hall ->]. split; [constructor; [lia | exact Hall] | reflexivity].
    + destruct IH as [-> Hex]. split; [reflexivity | now right].
Qed.

Lemma planMods_cases (mods : list Mod) :
  match planMods mods with
  | Ok copies =>
      Forall (fun m => ∀ f, is_Some (VendorList m !! f) →
                            0 ≤ Strings.Index f (Dir m)) mods ∧
      copies =
        concat (map (fun m =>
                       map (fun f => (f, "./vendor/" +:+ ImportPath m +:+
                                         Strings.slice_from f (Strings.len (Dir m))))
                           (map fst (map_to_list (VendorList m)))) mods)
  | Fatal msg =>
      msg = "Error! vendor file doesn't belong to mod, strange." ∧
      ∃ m f, m ∈ mods ∧ is_Some (VendorList m !! f) ∧
             Strings.Index f (Dir m) < 0
  | Panic _ => False
  end.
Proof.
  induction mods as [|m rest IH]; simpl; [now split |].
  pose proof (planFiles_spec m (map fst (map_to_list (VendorList m)))) as Hm.
  destruct (planFiles m _) as [copies | msg | p]; simpl; [| | exact Hm].
  - destruct Hm as [Hall ->].
    assert (∀ f, is_Some (VendorList m !! f) → 0 ≤ Strings.Index f (Dir m)) as Hm.
    { intros f Hf. apply keys_elem in Hf.
      eapply Forall_forall in Hall; [exact Hall | exact Hf]. }
    destruct (planMods rest) as [copies' | msg | p]; simpl; [| | exact IH].
    + destruct IH as [Hrest ->]. split; [now constructor | reflexivity].
    + destruct IH as [-> (m' & f & Hin & Hf & Hx)]. split; [reflexivity |].
      exists m', f. split; [now right | now split].
  - destruct Hm as [-> Hex]. split; [reflexivity |].
    apply Exists_exists in Hex as (f & Hf & Hx).
    exists m, f. split; [left | split; [now apply keys_elem | exact Hx]].
Qed.


Lemma elem_of_concat {A : Type} (x : A) (ls : list (list A)) :
  x ∈ concat ls ↔ ∃ l, x ∈ l ∧ l ∈ ls.
Proof.
  rewrite list_elem_of_In, in_concat. split.
  - intros (l & H1 & H2). exists l. now rewrite !list_elem_of_In.
  - intros (l & H1 & H2). exists l. now rewrite <- !list_elem_of_In.
Qed.

Lemma planMods_elem (mods : list Mod) (copies : list (string * string))
  (src dst : string) :
  planMods mods = Ok copies →
  (src, dst) ∈ copies ↔
  ∃ m, m ∈ mods ∧ is_Some (VendorList m !! src) ∧
       0 ≤ Strings.Index src (Dir m) ∧
       dst = "./vendor/" +:+ ImportPath m +:+
             Strings.slice_from src (Strings.len (Dir m)).
Proof.
  intros H. pose proof (planMods_cases mods) as Hs. rewrite H in Hs.
  destruct Hs as [Hall ->]. rewrite elem_of_concat. split.
  - intros (l & Hin & Hl). apply list_elem_of_fmap in Hl as (m & -> & Hm).
    apply list_elem_of_fmap in Hin as (f & [= -> ->] & Hf).
    apply keys_elem in Hf. exists m. split; [exact Hm |]. split; [exact Hf |].
    split; [| reflexivity]. eapply Forall_forall in Hall; [| exact Hm]. now apply Hall.
  - intros (m & Hm & Hf & _ & ->).
    exists (map (fun f => (f, "./vendor/" +:+ ImportPath m +:+
                              Strings.slice_from f (Strings.len (Dir m))))
                (map fst (map_to_list (VendorList m)))).
    split.
    + apply list_elem_of_fmap. exists src. split; [reflexivity | now apply keys_elem].
    + apply list_elem_of_fmap. now exists m.
Qed.

Lemma filterMod_fields (includedPackages : list string) (m : Mod) :
  ImportPath (filterMod includedPackages m) = ImportPath m ∧
  Dir (filterMod includedPackages m) = Dir m.
Proof.
  unfold filterMod. now destruct (size (VendorList m) =? 0)%nat.
Qed.

(** X14.  The copies of a run that ends without failure are exactly
    these: for each record of the parser, each candidate the collector
    entered whose path begins with a scoping directory of the record, from
    that path to [./vendor/], the import path and the path from
    [len(mod.Dir)] on.  No other file is copied, and the cache directory
    occurs in the path of every file copied. *)
Theorem main_copies (env : Env) (copyPatFlag includePackagesFlag : string)
  (manifest : list string) (copies : list (string * string)) :
  main env copyPatFlag includePackagesFlag manifest = Ok copies →
  ∃ st,
    parseLines env (Strings.Split (Strings.TrimSpace copyPatFlag) " ")
               parser0 manifest = Ok st ∧
    ∀ src dst,
      (src, dst) ∈ copies ↔
      ∃ m, m ∈ records st ∧
           VendorList m !! src = Some false ∧
           (∃ subpkg,
              subpkg ∈ Pkgs m ++
                List.filter (fun pkg => Strings.HasPrefix pkg (ImportPath m))
                  (Strings.Split (Strings.TrimSpace includePackagesFlag) " ") ∧
              Strings.HasPrefix src (scopePath m subpkg) = true) ∧
           0 ≤ Strings.Index src (Dir m) ∧
           dst = "./vendor/" +:+ ImportPath m +:+
                 Strings.slice_from src (Strings.len (Dir m)).
Proof.
  unfold main.
  destruct (Getwd env) as [cwd | |]; simpl; [| discriminate ..].
  destruct (IsNotExist env (Filepath.Join [cwd; "go.mod"])); [discriminate |].
  destruct (IsNotExist env (Filepath.Join [cwd; "vendor"; "modules.txt"]));
    [discriminate |].
  destruct (length _ =? 0)%nat; [discriminate |].
  set (copyPat := Strings.Split (Strings.TrimSpace copyPatFlag) " ").
  set (inc := Strings.Split (Strings.TrimSpace includePackagesFlag) " ").
  destruct (parseLines env copyPat parser0 manifest) as [st | |] eqn:Hparse;
    simpl; [| discriminate ..].
  intros Hplan. exists st. split; [reflexivity |]. intros src dst.
  rewrite (planMods_elem _ _ src dst Hplan). split.
  - intros (m' & Hin & Hsel & Hx & ->).
    apply list_elem_of_fmap in Hin as (m & -> & Hm).
    destruct (filterMod_fields inc m) as [Hip Hdir]. rewrite Hip, Hdir in *.
    destruct (records_parsed _ _ _ _ _ Hparse Hm) as [Hcol _].
    destruct Hsel as [toggle Ht].
    destruct (filterMod_kept _ _ _ _ Ht) as [_ [b Hb]].
    assert (VendorList m ≠ ∅) as Hne by (intros He; now rewrite He in Hb).
    exists m. split; [exact Hm |]. split; [now rewrite Hb, (Hcol _ _ Hb) |].
    split; [| now split].
    assert (is_Some (VendorList m !! src)) as Hc by (exists b; exact Hb).
    apply (filterMod_selected_iff inc m src Hne Hcol Hc). exists toggle. exact Ht.
  - intros (m & Hm & Hb & Hsub & Hx & ->).
    destruct (filterMod_fields inc m) as [Hip Hdir].
    destruct (records_parsed _ _ _ _ _ Hparse Hm) as [Hcol _].
    assert (VendorList m ≠ ∅) as Hne by (intros He; now rewrite He in Hb).
    exists (filterMod inc m). rewrite Hip, Hdir.
    split; [apply list_elem_of_fmap; now exists m |].
    split; [| now split].
    assert (is_Some (VendorList m !! src)) as Hc by (exists false; exact Hb).
    apply (filterMod_selected_iff inc m src Hne Hcol Hc). exact Hsub.
Qed.

(** X16.  Two files under the cache directory of a module never get the
    same destination: within a module no copy overwrites another. *)
Theorem vendorDest_injective (m : Mod) (f g : string) :
  Strings.HasPrefix f (Dir m) = true →
  Strings.HasPrefix g (Dir m) = true →
  vendorDest m f = vendorDest m g → f = g.
Proof.
  intros Hf Hg. apply HasPrefix_iff in Hf as [rf ->].
  apply HasPrefix_iff in Hg as [rg ->].
  unfold vendorDest. rewrite !Index_app, !slice_from_app. simpl.
  intros [= H]. apply append_cancel_l in H. now rewrite H.
Qed.

End MorePlanner.

(** ** The scoping directory of a sub-package *)

Section SubPackage.

(** Bytes without the separator added to a string go to its last
    element. *)
Lemma Split_append_no_sep (s t : string) (sep : ascii) :
  has_byte sep t = false →
  ∃ l e, Strings.Split s sep = l ++ [e] ∧
         Strings.Split (s +:+ t) sep = l ++ [e +:+ t].
Proof.
  intros Ht. induction s as [|c s (l & e & Hs & Hst)].
  - exists [], "". split; [reflexivity |]. simpl. now apply Split_no_sep.
  - cbn [Strings.Split String.append]. destruct (Ascii.eqb c sep).
    + exists ("" :: l), e. rewrite Hs, Hst. now split.
    + rewrite Hs, Hst. destruct l as [|h l]; simpl.
      * exists [], (String c e). now split.
      * exists (String c h :: l), e. now split.
Qed.

Lemma has_byte_plain (e : string) :
  has_byte "@" e = true → has_byte "/" e = false → plain e.
Proof.
  intros Hat Hsl. repeat split; [| | | exact Hsl]; intros ->; discriminate.
Qed.

(** The loop of [filepath.Clean] ends with an element written when the
    path ends in [@] and a version without separator. *)
Lemma fold_at_version (rooted : bool) (y s version : string) :
  has_byte "/" version = false →
  (fold_left (Filepath.clean_elem rooted)
             (Strings.Split (y +:+ "/" +:+ s +:+ "@" +:+ version) "/") (O, [])).2
  ≠ [].
Proof.
  intros Hv. change ("/" +:+ s +:+ "@" +:+ version)
    with (String "/" (s +:+ "@" +:+ version)).
  rewrite Split_app_sep.
  destruct (Split_append_no_sep s ("@" +:+ version) "/") as (l & e & Hs & ->).
  { simpl. exact Hv. }
  rewrite app_assoc, fold_left_app. cbn [fold_left].
  assert (plain (e +:+ "@" +:+ version)) as Hp.
  { apply has_byte_plain.
    - rewrite has_byte_app. simpl. now rewrite orb_true_r.
    - rewrite has_byte_app. simpl. rewrite Hv, orb_false_r.
      pose proof (Split_elems s "/") as Hall. rewrite Hs in Hall.
      apply Forall_app in Hall as [_ Hall]. now inversion Hall. }
  now rewrite (plain_step _ _ _ Hp).
Qed.

(** The state in which the loop leaves a cleaned path is the state that
    wrote it. *)
Lemma Clean_state (path : string) :
  path ≠ "" →
  Strings.HasPrefix (Filepath.Clean path) "/" = Strings.HasPrefix path "/" ∧
  fold_left (Filepath.clean_elem (Strings.HasPrefix path "/"))
            (Strings.Split (Filepath.Clean path) "/") (O, [])
  = fold_left (Filepath.clean_elem (Strings.HasPrefix path "/"))
              (Strings.Split path "/") (O, []).
Proof.
  intros Hne. rewrite (Clean_unfold _ Hne).
  assert (clean_state (Strings.HasPrefix path "/")
            (fold_left (Filepath.clean_elem (Strings.HasPrefix path "/"))
                       (Strings.Split path "/") (O, []))) as Hst.
  { apply fold_clean_state; [apply Split_elems |].
    split; [reflexivity | constructor]. }
  destruct (render_fixed _ _ Hst) as (_ & Hpre & Hfold). now split.
Qed.

Lemma pkgModPath_top (env : Env) (importPath version : string) :
  has_byte "/" version = false →
  (fold_left (Filepath.clean_elem
                (Strings.HasPrefix (pkgModPath env importPath version) "/"))
             (Strings.Split (pkgModPath env importPath version) "/") (O, [])).2
  ≠ [].
Proof.
  intros Hv. unfold pkgModPath. rewrite normLoop_escapeAll.
  change ("" +:+ escapeAll importPath) with (escapeAll importPath).
  unfold Filepath.Join. cbn [Filepath.from_nonempty].
  destruct (String.eqb_spec (goPath env) "") as [_ | Hg].
  - change (String.eqb "pkg" "") with false. cbn iota.
    change (Strings.Join ["pkg"; "mod"; escapeAll importPath +:+ "@" +:+ version] "/")
      with ("pkg/mod" +:+ "/" +:+ escapeAll importPath +:+ "@" +:+ version).
    destruct (Clean_state ("pkg/mod" +:+ "/" +:+ escapeAll importPath +:+ "@" +:+ version))
      as [-> ->]; [discriminate |].
    now apply fold_at_version.
  - set (g := goPath env) in *.
    replace (Strings.Join [g; "pkg"; "mod"; escapeAll importPath +:+ "@" +:+ version] "/")
      with ((g +:+ "/pkg/mod") +:+ "/" +:+ escapeAll importPath +:+ "@" +:+ version)
      by (cbn [Strings.Join]; now rewrite !append_assoc).
    destruct (Clean_state ((g +:+ "/pkg/mod") +:+ "/" +:+ escapeAll importPath
                           +:+ "@" +:+ version)) as [-> ->].
    + destruct g; [congruence | discriminate].
    + now apply fold_at_version.
Qed.

(** A doubled separator counts as one. *)
Lemma Clean_double_sep (y x : string) :
  y ≠ "" →
  Filepath.Clean (y +:+ "/" +:+ "/" +:+ x) = Filepath.Clean (y +:+ "/" +:+ x).
Proof.
  intros Hy.
  assert (y +:+ "/" +:+ "/" +:+ x ≠ "") as H1 by (destruct y; [congruence | discriminate]).
  assert (y +:+ "/" +:+ x ≠ "") as H2 by (destruct y; [congruence | discriminate]).
  rewrite (Clean_unfold _ H1), (Clean_unfold _ H2).
  rewrite !(HasPrefix_append _ _ "/" Hy).
  change ("/" +:+ "/" +:+ x) with (String "/" ("" +:+ String "/" x)).
  change ("/" +:+ x) with (String "/" x).
  rewrite !Split_app_sep, !fold_left_app. cbn [Strings.Split fold_left].
  now destruct (fold_left _ (Strings.Split y "/") _).
Qed.

(** The scoping directory of the package [ImportPath/rel]. *)
Lemma scopePath_rel (env : Env) (m : Mod) (importPath version rel : string) :
  Dir m = pkgModPath env importPath version →
  has_byte "/" version = false →
  Forall plain (Strings.Split rel "/") →
  scopePath m (ImportPath m +:+ "/" +:+ rel) = Dir m +:+ "/" +:+ rel.
Proof.
  intros HDir Hv Hrel.
  unfold scopePath. rewrite importPathIntersect_prefix.
  destruct (pkgModPath_clean_facts env importPath version) as (Hne & Hidem).
  rewrite HDir. unfold Filepath.Join. cbn [Filepath.from_nonempty].
  destruct (String.eqb_spec (pkgModPath env importPath version) "");
    [congruence |].
  cbn [Strings.Join]. rewrite (Clean_double_sep _ _ Hne).
  rewrite (Clean_append_plain _ _ Hne (pkgModPath_top _ _ _ Hv) Hrel).
  now rewrite Hidem.
Qed.

Lemma HasPrefix_app_both (p s t : string) :
  Strings.HasPrefix (p +:+ s) (p +:+ t) = Strings.HasPrefix s t.
Proof.
  induction p as [|c p IH]; simpl; [reflexivity |].
  now rewrite Ascii.eqb_refl.
Qed.

(** X17.  For a module whose cache directory comes from [pkgModPath] with
    a version without separator, and a package [ImportPath/rel] of its
    package set with plain elements in [rel], the scoping directory is
    [mod.Dir/rel], and every candidate whose path begins with it is kept:
    the files of the directory [rel] and below, and those of any directory
    beside it whose name begins with the last element of [rel]. *)
Theorem filterMod_subpackage (env : Env) (includedPackages : list string) (m : Mod)
  (importPath version rel rest : string) :
  Dir m = pkgModPath env importPath version →
  has_byte "/" version = false →
  Forall plain (Strings.Split rel "/") →
  ImportPath m +:+ "/" +:+ rel
    ∈ Pkgs m ++ List.filter (fun pkg => Strings.HasPrefix pkg (ImportPath m))
                            includedPackages →
  is_Some (VendorList m !! (Dir m +:+ "/" +:+ rel +:+ rest)) →
  scopePath m (ImportPath m +:+ "/" +:+ rel) = Dir m +:+ "/" +:+ rel ∧
  VendorList (filterMod includedPackages m) !! (Dir m +:+ "/" +:+ rel +:+ rest)
  = Some true.
Proof.
  intros HDir Hv Hrel Hin [toggle Hcand].
  pose proof (scopePath_rel env m importPath version rel HDir Hv Hrel) as Hscope.
  split; [exact Hscope |].
  assert (VendorList m ≠ ∅) as Hne by (intros He; now rewrite He in Hcand).
  rewrite (filterMod_lookup _ _ _ Hne), Hcand, appendIncluded_filter.
  assert (markLoop m (Dir m +:+ "/" +:+ rel +:+ rest)
            (Pkgs m ++ List.filter (fun pkg => Strings.HasPrefix pkg (ImportPath m))
                                   includedPackages) toggle = true) as ->;
    [| reflexivity].
  apply markLoop_true. right. exists (ImportPath m +:+ "/" +:+ rel).
  split; [exact Hin |]. rewrite Hscope.
  replace (Dir m +:+ "/" +:+ rel +:+ rest)
    with ((Dir m +:+ "/" +:+ rel) +:+ rest) by now rewrite !append_assoc.
  apply HasPrefix_app.
Qed.

(** X19.  For a module whose cache directory comes from [pkgModPath] with
    a version without separator, whose candidates the collector entered,
    and whose package set, [-include] entries added, holds only packages
    [ImportPath/rel] with plain elements in [rel]: a candidate
    [mod.Dir/x] is kept exactly when [x] begins with the [rel] of some
    package of the set. *)
Theorem filterMod_relative (env : Env) (includedPackages : list string) (m : Mod)
  (importPath version x : string) :
  Dir m = pkgModPath env importPath version →
  has_byte "/" version = false →
  collected m →
  (∀ subpkg,
     subpkg ∈ Pkgs m ++ List.filter (fun pkg => Strings.HasPrefix pkg (ImportPath m))
                                    includedPackages →
     ∃ rel, subpkg = ImportPath m +:+ "/" +:+ rel ∧
            Forall plain (Strings.Split rel "/")) →
  is_Some (VendorList m !! (Dir m +:+ "/" +:+ x)) →
  is_Some (VendorList (filterMod includedPackages m) !! (Dir m +:+ "/" +:+ x)) ↔
  ∃ rel,
    ImportPath m +:+ "/" +:+ rel
      ∈ Pkgs m ++ List.filter (fun pkg => Strings.HasPrefix pkg (ImportPath m))
                              includedPackages ∧
    Strings.HasPrefix x rel = true.
Proof.
  intros HDir Hv Hcol Hsub Hcand.
  assert (VendorList m ≠ ∅) as Hne.
  { intros He. rewrite He, lookup_empty in Hcand. now destruct Hcand. }
  rewrite (filterMod_selected_iff _ _ _ Hne Hcol Hcand).
  assert (∀ rel, Forall plain (Strings.Split rel "/") →
            Strings.HasPrefix (Dir m +:+ "/" +:+ x)
              (scopePath m (ImportPath m +:+ "/" +:+ rel))
            = Strings.HasPrefix x rel) as Hpre.
  { intros rel Hrel. rewrite (scopePath_rel env m importPath version rel HDir Hv Hrel).
    change ("/" +:+ x) with (String "/" x). change ("/" +:+ rel) with (String "/" rel).
    rewrite HasPrefix_app_both. cbn [Strings.HasPrefix]. now rewrite Ascii.eqb_refl. }
  split.
  - intros (subpkg & Hin & Hp). destruct (Hsub _ Hin) as (rel & -> & Hrel).
    exists rel. split; [exact Hin |]. now rewrite <- (Hpre rel Hrel).
  - intros (rel & Hin & Hp). exists (ImportPath m +:+ "/" +:+ rel).
    split; [exact Hin |]. destruct (Hsub _ Hin) as (rel' & Heq & Hrel).
    apply append_cancel_l in Heq. injection Heq as <-.
    now rewrite (Hpre rel Hrel).
Qed.

End SubPackage.

(** ** Failures of the parser *)

Section ParserFailures.

Variable env : Env.
Variable copyPat : list string.

(** The module line of a block ends with [emitMod] on its record, still
    without packages and candidates. *)
Lemma header_emit (st : parser) (b : block) :
  Forall (fun t => has_byte " " t = false) (blockTokens b) →
  blockVersion b ≠ "=>" →
  parseLine env copyPat st (Strings.Join (blockTokens b) " ")
  = emitMod env copyPat st (set_Pkgs [] (blockMod env b ∅)).
Proof.
  intros Htok Hver.
  assert (Strings.Split (Strings.Join (blockTokens b) " ") " " = blockTokens b)
    as Hsplit by (apply Split_Join_sep; [discriminate | exact Htok]).
  rewrite (parseLine_module _ _ _ _ (blockHeader_module b)).
  unfold moduleLine. rewrite Hsplit. unfold blockTokens at 1 2.
  cbn [at_index lookup list_lookup bind].
  destruct (String.eqb_spec (blockVersion b) "=>") as [? | _]; [congruence |].
  unfold blockTokens, blockMod, blockDir.
  destruct (blockReplace b) as [[sp sv]|]; reflexivity.
Qed.

(** X18.  The run ends at the first module line whose cache directory is
    missing, with a message that names the directory, and at the first
    one whose search for candidates fails, with the error of the search:
    the blocks before it are parsed, nothing after it is read. *)
Theorem parse_fails_at_block (blocks : list block)
  (vendorLists : list (gmap string bool)) (b : block) (rest : list string) :
  Forall blockOk blocks →
  Forall2 (fun b vendorList =>
             IsNotExist env (blockDir env b) = false ∧
             globLoop env copyPat (blockDir env b) ∅ = Ok vendorList)
          blocks vendorLists →
  Forall (fun t => has_byte " " t = false) (blockTokens b) →
  blockVersion b ≠ "=>" →
  (IsNotExist env (blockDir env b) = true →
   parseLines env copyPat parser0
     (concat (map blockLines blocks) ++ blockLines b ++ rest)
   = Fatal (blockDir env b +:+ " module path does not exist. Check $GOPATH/pkg/mod.")) ∧
  (IsNotExist env (blockDir env b) = false →
   ∀ msg, globLoop env copyPat (blockDir env b) ∅ = Fatal msg →
   parseLines env copyPat parser0
     (concat (map blockLines blocks) ++ blockLines b ++ rest)
   = Fatal msg).
Proof.
  intros Hok H2 Htok Hver.
  destruct (parse_blocks_from env copyPat parser0 blocks vendorLists
              parser0_valid Hok H2) as (st & Hrun & _).
  rewrite parseLines_app, Hrun. cbn [bind]. unfold blockLines.
  cbn [app parseLines]. rewrite (header_emit st b Htok Hver).
  unfold emitMod, buildModVendorList. cbn [Dir set_Pkgs blockMod].
  split.
  - intros ->. reflexivity.
  - intros -> msg ->. reflexivity.
Qed.

End ParserFailures.

(** ** The further statements at concrete inputs *)

Section MoreWitnesses.

Lemma filterMod_keeps_candidates_witness :
  true = true ∧
  is_Some (VendorList Scenario.fooMod !! (Scenario.fooDir +:+ "/bar/x.h")).
Proof.
  apply (filterMod_keeps_candidates [""] Scenario.fooMod
           (Scenario.fooDir +:+ "/bar/x.h") true).
  vm_compute. reflexivity.
Defined.

Lemma filterMod_no_packages_witness :
  VendorList (filterMod ["example.com/other"] (set_Pkgs [] Scenario.fooMod)) = ∅.
Proof.
  apply (filterMod_no_packages ["example.com/other"] (set_Pkgs [] Scenario.fooMod)).
  - apply addMatches_false, map_Forall_empty.
  - reflexivity.
  - constructor; [reflexivity | constructor].
Defined.

Lemma parse_foo_root :
  parseLines Scenario.envFoo Scenario.copyPat parser0
    ["# example.com/foo v1.0.0"; "example.com/foo"]
  = Ok (mkParser [set_Pkgs ["example.com/foo"] Scenario.fooMod] (Some O) [O]).
Proof. vm_compute. reflexivity. Qed.

Lemma filterMod_root_package_witness :
  scopePath (set_Pkgs ["example.com/foo"] Scenario.fooMod) "example.com/foo"
  = Scenario.fooDir ∧
  VendorList (filterMod [""] (set_Pkgs ["example.com/foo"] Scenario.fooMod))
    !! (Scenario.fooDir +:+ "/baz/y.h") = Some true.
Proof.
  apply (filterMod_root_package Scenario.envFoo Scenario.copyPat
           ["# example.com/foo v1.0.0"; "example.com/foo"] [""]
           (mkParser [set_Pkgs ["example.com/foo"] Scenario.fooMod] (Some O) [O])
           (set_Pkgs ["example.com/foo"] Scenario.fooMod)
           (Scenario.fooDir +:+ "/baz/y.h")).
  - exact parse_foo_root.
  - left.
  - left.
  - exists false. vm_compute. reflexivity.
  - reflexivity.
Defined.

Lemma filterMod_empty_include_witness :
  filterMod (Strings.Split (Strings.TrimSpace "  ") " ") Scenario.fooMod
  = filterMod [] Scenario.fooMod.
Proof.
  apply (filterMod_empty_include "  " Scenario.fooMod).
  - reflexivity.
  - discriminate.
Defined.

Lemma filterMod_include_mono_witness :
  is_Some (VendorList (filterMod ["example.com/foo/baz"] Scenario.fooMod)
             !! (Scenario.fooDir +:+ "/bar/x.h")).
Proof.
  apply (filterMod_include_mono [] ["example.com/foo/baz"] Scenario.fooMod
           (Scenario.fooDir +:+ "/bar/x.h")).
  - intros pkg H. now apply elem_of_nil in H.
  - exists true. vm_compute. reflexivity.
Defined.

Lemma normPath_injective_witness :
  "github.com/BurntSushi/toml" = "github.com/BurntSushi/toml".
Proof.
  exact (proj1 (normPath_injective Scenario.envFoo "github.com/BurntSushi/toml"
                  "github.com/BurntSushi/toml" "v0.3.1"
                  eq_refl eq_refl eq_refl eq_refl) eq_refl).
Defined.

Lemma pkgModPath_default_GOPATH_witness :
  pkgModPath (mkEnv "" "/home/u" (Ok "/w") (fun _ => false) (fun _ => inl []))
             "github.com/BurntSushi/toml" "v0.3.1"
  = "/home/u/go/pkg/mod/github.com/!burnt!sushi/toml@v0.3.1".
Proof.
  rewrite (pkgModPath_default_GOPATH
             (mkEnv "" "/home/u" (Ok "/w") (fun _ => false) (fun _ => inl []))
             "github.com/BurntSushi/toml" "v0.3.1" eq_refl).
  vm_compute. reflexivity.
Defined.

Lemma parse_blocks_witness :
  ∃ st, parseLines Scenario.envFoo Scenario.copyPat parser0
          ["# example.com/foo v1.0.0"; "example.com/foo/bar";
           "# example.com/zzz v0.9.0 => example.com/foo v1.0.0";
           "example.com/zzz"; "example.com/zzz/sub"] = Ok st ∧
        records st =
          [Scenario.fooMod;
           mkMod "example.com/zzz" "example.com/foo" "v0.9.0" "v1.0.0"
                 Scenario.fooDir ["example.com/zzz"; "example.com/zzz/sub"]
                 (addMatches ∅ Scenario.fooFiles)].
Proof.
  apply (parse_blocks Scenario.envFoo Scenario.copyPat
           [Scenario.fooBlock; Scenario.zzzBlock]
           [addMatches ∅ Scenario.fooFiles; addMatches ∅ Scenario.fooFiles]).
  - repeat constructor; discriminate.
  - repeat constructor; vm_compute; reflexivity.
Defined.

Lemma moduleLine_short_panics_witness :
  parseLine Scenario.envFoo Scenario.copyPat parser0
    "# example.com/foo v1.0.0 => ../foo" = Panic IndexOutOfRange.
Proof.
  apply (moduleLine_short_panics Scenario.envFoo Scenario.copyPat parser0
           "# example.com/foo v1.0.0 => ../foo" eq_refl).
  - discriminate.
  - reflexivity.
  - vm_compute. lia.
Defined.

Lemma modules_distinct_witness :
  NoDup [O] ∧ Forall (fun p => is_Some ([Scenario.fooMod] !! p)) [O] ∧
  length (records (mkParser [Scenario.fooMod] (Some O) [O])) = 1%nat.
Proof.
  exact (modules_distinct Scenario.envFoo Scenario.copyPat
           ["# example.com/foo v1.0.0"; "example.com/foo/bar"]
           (mkParser [Scenario.fooMod] (Some O) [O]) parse_foo).
Defined.

Lemma main_foo :
  main Scenario.envFoo "**/*.h" "" ["# example.com/foo v1.0.0"; "example.com/foo/bar"]
  = Ok [(Scenario.fooDir +:+ "/bar/x.h", "./vendor/example.com/foo/bar/x.h");
        (Scenario.fooDir +:+ "/barbecue/x.h",
         "./vendor/example.com/foo/barbecue/x.h")].
Proof. vm_compute. reflexivity. Qed.

Lemma main_copies_witness :
  ∃ st,
    parseLines Scenario.envFoo (Strings.Split (Strings.TrimSpace "**/*.h") " ")
      parser0 ["# example.com/foo v1.0.0"; "example.com/foo/bar"] = Ok st ∧
    ∃ m, m ∈ records st ∧
         VendorList m !! (Scenario.fooDir +:+ "/bar/x.h") = Some false ∧
         0 ≤ Strings.Index (Scenario.fooDir +:+ "/bar/x.h") (Dir m).
Proof.
  destruct (main_copies Scenario.envFoo "**/*.h" ""
              ["# example.com/foo v1.0.0"; "example.com/foo/bar"] _ main_foo)
    as (st & Hparse & Hiff).
  exists st. split; [exact Hparse |].
  destruct (proj1 (Hiff (Scenario.fooDir +:+ "/bar/x.h")
                        "./vendor/example.com/foo/bar/x.h"))
    as (m & Hm & Hb & _ & Hx & _); [left |].
  exists m. now repeat split.
Defined.

Lemma vendorDest_injective_witness :
  Scenario.fooDir +:+ "/bar/x.h" = Scenario.fooDir +:+ "/bar/x.h".
Proof.
  apply (vendorDest_injective Scenario.fooMod); reflexivity.
Defined.

Lemma filterMod_subpackage_witness :
  scopePath Scenario.fooMod "example.com/foo/bar" = Scenario.fooDir +:+ "/bar" ∧
  VendorList (filterMod [""] Scenario.fooMod)
    !! (Scenario.fooDir +:+ "/bar" +:+ "becue/x.h") = Some true.
Proof.
  apply (filterMod_subpackage Scenario.envFoo [""] Scenario.fooMod
           "example.com/foo" "v1.0.0" "bar" "becue/x.h").
  - reflexivity.
  - reflexivity.
  - constructor; [repeat split; discriminate | constructor].
  - left.
  - exists false. vm_compute. reflexivity.
Defined.

Lemma parse_fails_at_block_witness :
  parseLines
    (mkEnv "/g" "/home/u" (Ok "/w")
           (fun p => String.eqb p "/g/pkg/mod/example.com/gone@v2.0.0")
           (Glob Scenario.envFoo))
    Scenario.copyPat parser0
    (["# example.com/foo v1.0.0"; "example.com/foo/bar"]
     ++ ["# example.com/gone v2.0.0"; "example.com/gone/pkg"]
     ++ ["# example.com/later v3.0.0"])
  = Fatal "/g/pkg/mod/example.com/gone@v2.0.0 module path does not exist. Check $GOPATH/pkg/mod.".
Proof.
  refine (proj1 (parse_fails_at_block
           (mkEnv "/g" "/home/u" (Ok "/w")
                  (fun p => String.eqb p "/g/pkg/mod/example.com/gone@v2.0.0")
                  (Glob Scenario.envFoo))
           Scenario.copyPat [Scenario.fooBlock] [addMatches ∅ Scenario.fooFiles]
           (mkBlock "example.com/gone" "v2.0.0" None ["example.com/gone/pkg"])
           ["# example.com/later v3.0.0"] _ _ _ _) _).
  - repeat constructor; discriminate.
  - repeat constructor; vm_compute; reflexivity.
  - repeat constructor.
  - discriminate.
  - vm_compute. reflexivity.
Defined.

Lemma filterMod_relative_witness :
  is_Some (VendorList (filterMod [""] Scenario.fooMod)
             !! (Dir Scenario.fooMod +:+ "/" +:+ "bar/x.h")) ↔
  ∃ rel, ImportPath Scenario.fooMod +:+ "/" +:+ rel
           ∈ Pkgs Scenario.fooMod ++
             List.filter (fun pkg => Strings.HasPrefix pkg (ImportPath Scenario.fooMod))
                         [""] ∧
         Strings.HasPrefix "bar/x.h" rel = true.
Proof.
  apply (filterMod_relative Scenario.envFoo [""] Scenario.fooMod
           "example.com/foo" "v1.0.0" "bar/x.h").
  - reflexivity.
  - reflexivity.
  - apply addMatches_false, map_Forall_empty.
  - intros subpkg Hin. apply list_elem_of_singleton in Hin. subst subpkg.
    exists "bar". split; [reflexivity |].
    constructor; [repeat split; discriminate | constructor].
  - exists false. vm_compute. reflexivity.
Defined.

End MoreWitnesses.
